(** * continue-js: the continuation registry and dispatcher

    A shallow embedding of [packages/continue-js/src/index.ts] and the
    properties of its five exported operations: [canContinueWith],
    [continueWith], [continueNow], [dontContinue] and [configureContinue];
    then of the programs that use them, the README's test and the echo bot
    of [samples/02-EchoBot].

    Conventions of the embedding.
    - A JavaScript function object is named by a reference ([fnref]); its
      read-only [name] and its code are tables indexed by the reference, its
      mutable [continuationId] property lives in the state.
    - The module-level bindings [_continuations] and [_config] are fields of
      the state, threaded explicitly through every operation.
    - A [throw] or a rejected promise is the [Threw] completion; a resolved
      promise is the [Returned] completion.  Every operation of one chain
      runs to completion before the next starts, so [await] is sequencing.
    - User code (continuation functions, a configured [functionNotFound]) is
      a function of the state: it may read it, change the application's part
      of it, and call [canContinueWith], [continueWith], [dontContinue] and
      [configureContinue]; it always ends, and does not call [continueNow].
    - [continueNow] calls itself after a redirect, without bound: the
      embedding counts the redirects it may still follow. *)

From stdpp Require Import base option list strings gmap pretty.
From Stdlib Require Import ZArith Ascii.

Local Open Scope string_scope.
Set Warnings "-register-all".

(** ** Data model *)

(** Plain data, the values an argument list is made of. *)
Inductive value : Type :=
| VNull
| VBool (b : bool)
| VNum (n : Z)
| VStr (s : string)
| VArr (items : list value)
| VObj (fields : list (string * value)).

(** [interface Continuation]: [continuationId?] and [args?] are optional. *)
Record Continuation : Type := mkContinuation {
  done : bool;
  continuationId : option string;
  args : option (list value)
}.

(** Identity of a function object. *)
Definition fnref : Type := positive.

(** Identity of a function installed as [functionNotFound]. *)
Definition handlerref : Type := positive.

(** The four [throw new Error(...)] sites of the library, each with the
    values its message interpolates, and an error raised by user code. *)
Inductive Error : Type :=
| DuplicateRegistration (name callerfile : string)
| IdentifierCollision (id : string)
| UnregisteredUnit (name : string)
| ContinuationNotFound (id : option string)
| UserError (what : value).

Definition show_undefined (o : option string) : string :=
  match o with
  | Some s => s
  | None => "undefined"
  end.

(** The text of each error, as the template literals build it. *)
Definition message (e : Error) : string :=
  match e with
  | DuplicateRegistration name callerfile =>
      "canContinue() has already been called for '" ++ name ++
      "' in file '" ++ callerfile ++ "'."
  | IdentifierCollision id =>
      "canContinue() can't register continuationId '" ++ id ++
      "' because it a;ready exists."
  | UnregisteredUnit name =>
      "continueWith() called with a function that can't be continued. " ++
      "Call 'canContinue(" ++ name ++ ")'."
  | ContinuationNotFound id =>
      "continueNow() can't find a continuation function for continuationId '"
      ++ show_undefined id ++ "'."
  | UserError _ => "user error"
  end.

(** How a call ends. *)
Inductive completion (A : Type) : Type :=
| Returned (a : A)
| Threw (e : Error).
Arguments Returned {A} a.
Arguments Threw {A} e.

(** The [functionNotFound] slot of the configuration: the function the
    module installs at load time, or one supplied by the application. *)
Inductive NotFoundPolicy : Type :=
| DefaultFunctionNotFound
| CustomFunctionNotFound (h : handlerref).

(** [interface ContinuationConfiguration]. *)
Record ContinuationConfiguration : Type := mkConfig {
  getContinuationId : string -> string -> string;
  functionNotFound : NotFoundPolicy
}.

(** [Partial<ContinuationConfiguration>]. *)
Record PartialConfiguration : Type := mkPartial {
  getContinuationId_opt : option (string -> string -> string);
  functionNotFound_opt : option NotFoundPolicy
}.

(** JavaScript truthiness of a string: only the empty string is falsy. *)
Definition truthy (s : string) : bool :=
  match s with
  | EmptyString => false
  | String _ _ => true
  end.

(** Truthiness of an optional string property: [undefined] is falsy. *)
Definition truthy_opt (o : option string) : bool :=
  match o with
  | Some s => truthy s
  | None => false
  end.

(** ** Identity resolver: the walk over the call sites *)

(** A captured stack is the list of its frames' [getFileName()] results,
    innermost first; [None] stands for a frame without a file name. *)
Definition fileName (frame : option string) : string := default "" frame.

(** The [while (stack.length)] loop: drop frames until one lies in another
    file than [currentfile]; [callerfile] is the last frame looked at. *)
Fixpoint searchCaller (currentfile callerfile : string)
    (stack : list (option string)) : string :=
  match stack with
  | [] => callerfile
  | frame :: rest =>
      let callerfile := fileName frame in
      if decide (currentfile = callerfile)
      then searchCaller currentfile callerfile rest
      else callerfile
  end.

Definition callerFile (stack : list (option string)) : string :=
  match stack with
  | [] => searchCaller "" "" []
  | frame :: rest => searchCaller (fileName frame) "" rest
  end.

(** ** State *)

Section Library.

(** [W] is whatever the application keeps outside the library (the objects
    reachable from a context, a conversation store); [Ctx] is the type of
    the [context] argument, opaque to the library. *)
Context {W Ctx : Type}.

(** [_continuations] and [_config] are the module's two bindings;
    [fn_continuationId] holds the [continuationId?] property that
    [interface ContinuationFunction] adds to a function object; [world] is
    the application's part. *)
Record State : Type := mkState {
  _continuations : gmap string fnref;
  _config : ContinuationConfiguration;
  fn_continuationId : gmap fnref string;
  world : W
}.

Definition set_continuations (m : gmap string fnref) (s : State) : State :=
  mkState m (_config s) (fn_continuationId s) (world s).

Definition set_config (c : ContinuationConfiguration) (s : State) : State :=
  mkState (_continuations s) c (fn_continuationId s) (world s).

Definition set_fn_continuationId (m : gmap fnref string) (s : State) : State :=
  mkState (_continuations s) (_config s) m (world s).

(** The configuration the module starts with (lines 3-6). *)
Definition default_getContinuationId (fileName functionName : string) : string :=
  fileName ++ "#" ++ functionName.

Definition default_config : ContinuationConfiguration :=
  mkConfig default_getContinuationId DefaultFunctionNotFound.

(** The state right after the module is loaded. *)
Definition initial (w : W) : State := mkState ∅ default_config ∅ w.

(** ** User code *)

(** [fn.name] of each function object. *)
Variable fn_name : fnref -> string.

(** The code of each function object used as a continuation function:
    it receives the context and the arguments, may read and change the
    state, and returns a continuation or throws. *)
Variable fn_code :
  fnref -> Ctx -> list value -> State -> completion Continuation * State.

(** The code of each application-supplied [functionNotFound]. *)
Variable handler_code :
  handlerref -> Continuation -> Ctx -> State -> completion Continuation * State.

(** ** Operations *)

(** [canContinueWith(fn)], called with [stack] as the captured call stack.
    [Error.prepareStackTrace] is replaced while the stack is captured and put
    back by the [finally] block on every path. *)
Definition canContinueWith (fn : fnref) (stack : list (option string))
    (s : State) : completion fnref * State :=
  let callerfile := callerFile stack in
  if truthy_opt (fn_continuationId s !! fn)
  then (Threw (DuplicateRegistration (fn_name fn) callerfile), s)
  else
    let id := getContinuationId (_config s) callerfile (fn_name fn) in
    let s1 := set_fn_continuationId (<[fn := id]> (fn_continuationId s)) s in
    match _continuations s1 !! id with
    | None => (Returned fn, set_continuations (<[id := fn]> (_continuations s1)) s1)
    | Some _ => (Threw (IdentifierCollision id), s1)
    end.

(** [continueWith(fn, ...args)]. *)
Definition continueWith (fn : fnref) (a : list value) (s : State)
    : completion Continuation :=
  match fn_continuationId s !! fn with
  | Some id =>
      if truthy id
      then Returned (mkContinuation false (Some id) (Some a))
      else Threw (UnregisteredUnit (fn_name fn))
  | None => Threw (UnregisteredUnit (fn_name fn))
  end.

(** [dontContinue()]. *)
Definition dontContinue : Continuation := mkContinuation true None None.

(** [configureContinue(config)]: [{..._config, ...config}]. *)
Definition configureContinue (config : PartialConfiguration) (s : State) : State :=
  set_config
    (mkConfig
       (default (getContinuationId (_config s)) (getContinuationId_opt config))
       (default (functionNotFound (_config s)) (functionNotFound_opt config)))
    s.

(** What [continueNow] itself calls, in order. *)
Inductive event : Type :=
| CalledFunction (fn : fnref) (context : Ctx) (arguments : list value)
| CalledFunctionNotFound (continuation : Continuation) (context : Ctx).

(** A run of [continueNow]: how it ended ([None] when one more redirect was
    to be followed than allowed), the state it left, and its calls. *)
Record run : Type := mkRun {
  outcome : option (completion Continuation);
  final : State;
  calls : list event
}.

Definition after (e : event) (r : run) : run :=
  mkRun (outcome r) (final r) (e :: calls r).

(** [_config.functionNotFound(resolved, context)]. *)
Definition call_functionNotFound (c : Continuation) (context : Ctx) (s : State)
    : completion Continuation * State :=
  match functionNotFound (_config s) with
  | DefaultFunctionNotFound => (Threw (ContinuationNotFound (continuationId c)), s)
  | CustomFunctionNotFound h => handler_code h c context s
  end.

(** [return await dontContinue()]: the run that makes no call and leaves
    the state alone. *)
Definition finished (s : State) : run := mkRun (Some (Returned dontContinue)) s [].

(** [continueNow(continuation, context)], following at most [redirects]
    redirects. *)
Fixpoint continueNow (redirects : nat) (resolved : Continuation) (context : Ctx)
    (s : State) : run :=
  match done resolved, continuationId resolved with
  | false, Some id =>
      if truthy id
      then
        match _continuations s !! id with
        | Some cfn =>
            let a := default [] (args resolved) in
            let '(r, s') := fn_code cfn context a s in
            mkRun (Some r) s' [CalledFunction cfn context a]
        | None =>
            let '(r, s') := call_functionNotFound resolved context s in
            after (CalledFunctionNotFound resolved context)
              match r with
              | Threw e => mkRun (Some (Threw e)) s' []
              | Returned redirect =>
                  if done redirect
                  then mkRun (Some (Returned redirect)) s' []
                  else
                    match redirects with
                    | O => mkRun None s' []
                    | S n => continueNow n redirect context s'
                    end
              end
        end
      else finished s
  | _, _ => finished s
  end.

(** ** The library as seen by a caller *)

(** One call of an exported operation. *)
Inductive call : Type :=
| CanContinueWith (fn : fnref) (stack : list (option string))
| ContinueWith (fn : fnref) (a : list value)
| ContinueNow (redirects : nat) (continuation : Continuation) (context : Ctx)
| DontContinue
| ConfigureContinue (config : PartialConfiguration).

(** The state a call leaves, whether it returned or threw. *)
Definition exec (op : call) (s : State) : State :=
  match op with
  | CanContinueWith fn stack => (canContinueWith fn stack s).2
  | ContinueWith _ _ => s
  | ContinueNow n c context => final (continueNow n c context s)
  | DontContinue => s
  | ConfigureContinue config => configureContinue config s
  end.

Definition exec_all (ops : list call) (s : State) : State :=
  foldl (fun s op => exec op s) s ops.

(** Every entry of the table of [s] is an entry of the table of [s']. *)
Definition registry_kept (s s' : State) : Prop :=
  forall id fn, _continuations s !! id = Some fn -> _continuations s' !! id = Some fn.

(** Every function carrying a non-empty identifier in [s] carries the same
    one in [s']. *)
Definition identifiers_kept (s s' : State) : Prop :=
  forall fn id, fn_continuationId s !! fn = Some id -> id ≠ "" ->
    fn_continuationId s' !! fn = Some id.

(** User code stays within [R]: whatever a continuation function or a
    [functionNotFound] does to the state relates the state before to the
    state after.  [_continuations] is private to the module, so user code
    reaches it through the exported operations only. *)
Definition user_code_respects (R : State -> State -> Prop) : Prop :=
  (forall fn context a s, R s (fn_code fn context a s).2) /\
  (forall h c context s, R s (handler_code h c context s).2).

End Library.

Arguments State : clear implicits.
Arguments run : clear implicits.
Arguments event : clear implicits.
Arguments call : clear implicits.

(** ** Storing a continuation *)

(** The first value stored under [key], if any. *)
Fixpoint field (key : string) (fields : list (string * value)) : option value :=
  match fields with
  | [] => None
  | (k, v) :: rest => if decide (k = key) then Some v else field key rest
  end.

(** Modelled from the spec: the generic structured-data format a store
    keeps continuations in is not part of the library; a record is written
    as the object of its present fields, an absent field being left out. *)
Definition toJSON (c : Continuation) : value :=
  VObj ([("done", VBool (done c))]
        ++ match continuationId c with
           | Some id => [("continuationId", VStr id)]
           | None => []
           end
        ++ match args c with
           | Some a => [("args", VArr a)]
           | None => []
           end).

(** Modelled from the spec: reading a stored object back, field by field;
    [None] when the object does not have the shape of a continuation. *)
Definition fromJSON (v : value) : option Continuation :=
  match v with
  | VObj fields =>
      match field "done" fields with
      | Some (VBool d) =>
          match field "continuationId" fields with
          | Some (VStr id) =>
              match field "args" fields with
              | Some (VArr a) => Some (mkContinuation d (Some id) (Some a))
              | Some _ => None
              | None => Some (mkContinuation d (Some id) None)
              end
          | Some _ => None
          | None =>
              match field "args" fields with
              | Some (VArr a) => Some (mkContinuation d None (Some a))
              | Some _ => None
              | None => Some (mkContinuation d None None)
              end
          end
      | _ => None
      end
  | _ => None
  end.

(** ** A sample application

    The functions of the README's samples, together with functions that
    share a name or have none.  The world is the iteration counter of the
    README's test; the context is its [maxIterations]. *)
Module Sample.

Definition testContinuation : fnref := 1%positive.
Definition errorContinuation : fnref := 2%positive.
Definition stepA : fnref := 3%positive.
Definition stepB : fnref := 4%positive.
Definition anonymousA : fnref := 5%positive.
Definition anonymousB : fnref := 6%positive.
Definition lazyStep : fnref := 7%positive.

Definition name_of (fn : fnref) : string :=
  match fn with
  | 1%positive => "testContinuation"
  | 2%positive => "errorContinuation"
  | 3%positive => "step"
  | 4%positive => "step"
  | 7%positive => "lazyStep"
  | _ => ""
  end.

Definition add_world (k : nat) (s : State nat) : State nat :=
  mkState (_continuations s) (_config s) (fn_continuationId s) (k + world s).

(** Call stacks of a registration made from [test.js], [index.js], [bot.js]
    and [other.js]: the frame of [canContinueWith] itself comes first. *)
Definition lib : option string := Some "node_modules/continue-js/lib/index.js".
Definition from_test : list (option string) := [lib; Some "test.js"; None].
Definition from_index : list (option string) := [lib; Some "index.js"; None].
Definition from_bot : list (option string) := [lib; Some "bot.js"; Some "index.js"].
Definition from_other : list (option string) := [lib; Some "other.js"].

(** [testContinuation] is the README's: it counts, and chains back to itself
    until the count reaches [maxIterations].  [lazyStep] registers [stepA]
    when it runs and continues with it, passing its arguments on. *)
Definition code (fn : fnref) (maxIterations : nat) (a : list value) (s : State nat)
    : completion Continuation * State nat :=
  match fn with
  | 1%positive =>
      let s' := add_world 1 s in
      if decide (world s' < maxIterations)
      then (continueWith name_of testContinuation [] s', s')
      else (Returned dontContinue, s')
  | 2%positive => (Returned dontContinue, s)
  | 3%positive => (Returned dontContinue, add_world 10 s)
  | 4%positive => (Returned dontContinue, add_world 100 s)
  | 7%positive =>
      let r := canContinueWith name_of stepA from_bot s in
      match r.1 with
      | Returned fn => (continueWith name_of fn a r.2, r.2)
      | Threw e => (Threw e, r.2)
      end
  | _ => (Returned dontContinue, s)
  end.

(** The README's custom [functionNotFound]:
    [(continuation, context) => continueWith(errorContinuation)]. *)
Definition toError : handlerref := 1%positive.

Definition handler (h : handlerref) (c : Continuation) (maxIterations : nat)
    (s : State nat) : completion Continuation * State nat :=
  (continueWith name_of errorContinuation [] s, s).

(** A policy that names the functions of the entry file by their bare name. *)
Definition entry_policy (file name : string) : string :=
  if decide (file = "index.js") then name else file ++ "#" ++ name.

(** The README's test after its registration. *)
Definition tested : State nat :=
  (canContinueWith name_of testContinuation from_test (initial 0)).2.

(** The README's recovery set-up: [errorContinuation] registered, then the
    custom [functionNotFound] installed. *)
Definition recovering : State nat :=
  configureContinue (mkPartial None (Some (CustomFunctionNotFound toError)))
    (canContinueWith name_of errorContinuation from_bot (initial 0)).2.

(** Two functions called [step], registered from the same file. *)
Definition stepped : State nat :=
  (canContinueWith name_of stepA from_bot (initial 0)).2.
Definition collided : State nat :=
  (canContinueWith name_of stepB from_bot stepped).2.

(** Functions without a name, under [entry_policy]. *)
Definition configured : State nat :=
  configureContinue (mkPartial (Some entry_policy) None) (initial 0).
Definition nameless : State nat :=
  (canContinueWith name_of anonymousA from_index configured).2.
Definition nameless_again : State nat :=
  (canContinueWith name_of anonymousA from_other nameless).2.
Definition nameless_collided : State nat :=
  (canContinueWith name_of anonymousB from_index nameless).2.

(** Continuations met below. *)
Definition chained : Continuation :=
  mkContinuation false (Some "test.js#testContinuation") (Some [VNum 7]).
Definition missing : Continuation :=
  mkContinuation false (Some "gone.js#old") None.
Definition stepping : Continuation :=
  mkContinuation false (Some "bot.js#step") (Some [VNum 1]).
Definition lazy : Continuation :=
  mkContinuation false (Some "index.js#lazyStep") (Some [VNum 1]).

(** The rest of a start-up: another registration, then the configuration. *)
Definition start_up : list (call nat) :=
  [CanContinueWith errorContinuation from_bot;
   ConfigureContinue (mkPartial None (Some (CustomFunctionNotFound toError)))].

(** Calls made after start-up: registrations that throw, one that returns,
    a change of configuration, and executions that run user code. *)
Definition later : list (call nat) :=
  [CanContinueWith stepB from_bot;
   CanContinueWith stepA from_other;
   CanContinueWith lazyStep from_index;
   ConfigureContinue (mkPartial (Some entry_policy) (Some (CustomFunctionNotFound toError)));
   ContinueWith stepB [VNull];
   ContinueNow 1 stepping 5;
   ContinueNow 1 lazy 5;
   ContinueNow 1 missing 5;
   DontContinue;
   CanContinueWith anonymousA from_index].

(** The loop of the README's test:
    [while (!continuation.done) continuation = await continueNow(continuation, context)],
    run for at most [turns] turns; it answers the last continuation, the
    state, and the calls made, turn by turn. *)
Fixpoint loop (turns : nat) (c : Continuation) (maxIterations : nat) (s : State nat)
    : Continuation * State nat * list (event nat) :=
  match turns with
  | O => (c, s, [])
  | S turns =>
      if done c then (c, s, [])
      else
        let r := continueNow code handler 0 c maxIterations s in
        match outcome r with
        | Some (Returned next) =>
            let '(last, s', evs) := loop turns next maxIterations (final r) in
            (last, s', (calls r ++ evs)%list)
        | _ => (c, final r, calls r)
        end
  end.

End Sample.

(** ** Driving a chain

    The loop of the README's test,
    [while (!continuation.done) continuation = await continueNow(continuation, context)],
    for any application: at most [turns] executions, each following at most
    [redirects] redirects.  The run ends with the continuation that is done,
    with what an execution threw, or with [None] when the turns (or the
    redirects of an execution) ran out. *)
Section Drivers.

Context {W Ctx : Type}.
Variable fn_code :
  fnref -> Ctx -> list value -> State W -> completion Continuation * State W.
Variable handler_code :
  handlerref -> Continuation -> Ctx -> State W -> completion Continuation * State W.

Fixpoint whileNotDone (turns redirects : nat) (continuation : Continuation)
    (context : Ctx) (s : State W) : run W Ctx :=
  if done continuation
  then mkRun (Some (Returned continuation)) s []
  else
    match turns with
    | O => mkRun None s []
    | S turns =>
        let r := continueNow fn_code handler_code redirects continuation context s in
        match outcome r with
        | Some (Returned next) =>
            let r' := whileNotDone turns redirects next context (final r) in
            mkRun (outcome r') (final r') (calls r ++ calls r')%list
        | _ => r
        end
    end.

End Drivers.

(** ** The README's test, with its console

    [context] is the one object [{ iterations, maxIterations }]; the world
    holds its two fields and the lines written by [console.log].  The two
    fields are JavaScript numbers: the model takes them among the integers
    from 0 to 2^53, which a double holds exactly, where [++] adds one, except
    at 2^53 itself, which it leaves as it is, and where a template literal
    prints the number in decimal. *)
Module Iteration.

Record Test : Type := mkTest {
  iterations : N;
  maxIterations : N;
  console : list string
}.

(** The largest count [++] reaches: [2^53 + 1] is no double, and rounds
    back to [2^53]. *)
Definition exact_limit : N := (2 ^ 53)%N.
Arguments exact_limit : simpl never.

(** [++n], for [n] from 0 to [exact_limit]. *)
Definition increment (n : N) : N :=
  if decide (n < exact_limit)%N then (n + 1)%N else n.

Definition testContinuation : fnref := 1%positive.

Definition name_of (fn : fnref) : string :=
  match fn with
  | 1%positive => "testContinuation"
  | _ => ""
  end.

(** [`This is call ${++context.iterations} of ${context.maxIterations}`]. *)
Definition line (call maxIterations : N) : string :=
  "This is call " ++ pretty call ++ " of " ++ pretty maxIterations.

Definition set_world (w : Test) (s : State Test) : State Test :=
  mkState (_continuations s) (_config s) (fn_continuationId s) w.

(** [testContinuation(context)]; the test has no other function. *)
Definition code (fn : fnref) (context : unit) (a : list value) (s : State Test)
    : completion Continuation * State Test :=
  match fn with
  | 1%positive =>
      let w := world s in
      let s' :=
        set_world
          (mkTest (increment (iterations w)) (maxIterations w)
                  (console w ++ [line (increment (iterations w)) (maxIterations w)]))
          s in
      if decide (iterations (world s') < maxIterations (world s'))%N
      then (continueWith name_of testContinuation [] s', s')
      else (Returned dontContinue, s')
  | _ => (Returned dontContinue, s)
  end.

(** The test configures no [functionNotFound]. *)
Definition handler (h : handlerref) (c : Continuation) (context : unit)
    (s : State Test) : completion Continuation * State Test :=
  (Returned dontContinue, s).

(** The whole script: the registration, made with the call stack
    [stack]; the context [{ iterations: 0, maxIterations }];
    [continueWith(testContinuation)]; the loop. *)
Definition main (stack : list (option string)) (maxIterations : N) (turns : nat)
    : run Test unit :=
  let registration :=
    canContinueWith name_of testContinuation stack
      (initial (mkTest 0 maxIterations [])) in
  match registration.1 with
  | Threw e => mkRun (Some (Threw e)) registration.2 []
  | Returned _ =>
      match continueWith name_of testContinuation [] registration.2 with
      | Returned continuation =>
          whileNotDone code handler turns 0 continuation tt registration.2
      | Threw e => mkRun (Some (Threw e)) registration.2 []
      end
  end.

End Iteration.

(** ** The echo bot

    [samples/02-EchoBot]: [continuations.js], [conversationStore.js] and the
    two handlers of [bot.js].  The state objects of the conversations live
    in [objects], each with its [name] property when it has one; the store
    keeps, for a conversation, a continuation and a reference to its state
    object; [sent] records what [context.sendActivity] was given, with the
    conversation it went to. *)
Module EchoBot.

Definition object : Type := positive.

Record Bot : Type := mkBot {
  storage : gmap string (Continuation * object);
  objects : gmap object (option string);
  sent : list (string * string)
}.

(** What the handlers read of [context.activity]. *)
Record Activity : Type := mkActivity {
  text : string;
  conversation : string;
  recipient : string;
  membersAdded : list string
}.

(** The turn context, once [context.conversationState] is set. *)
Record TurnContext : Type := mkContext {
  activity : Activity;
  conversationState : object
}.

Definition set_world (w : Bot) (s : State Bot) : State Bot :=
  mkState (_continuations s) (_config s) (fn_continuationId s) w.

(** [context.sendActivity(message)]. *)
Definition sendActivity (to message : string) (s : State Bot) : State Bot :=
  set_world
    (mkBot (storage (world s)) (objects (world s))
           (sent (world s) ++ [(to, message)]))
    s.

(** [context.conversationState.name]. *)
Definition name_in (context : TurnContext) (s : State Bot) : option string :=
  objects (world s) !! conversationState context ≫= (fun name => name).

(** [context.conversationState.name = value]. *)
Definition set_name (context : TurnContext) (value : string) (s : State Bot)
    : State Bot :=
  set_world
    (mkBot (storage (world s))
           (<[conversationState context := Some value]> (objects (world s)))
           (sent (world s)))
    s.

Definition startContinuation : fnref := 1%positive.
Definition namePromptContinuation : fnref := 2%positive.

Definition name_of (fn : fnref) : string :=
  match fn with
  | 1%positive => "startContinuation"
  | 2%positive => "namePromptContinuation"
  | _ => ""
  end.

(** [continuations.js]: [startContinuation] and [namePromptContinuation];
    the bot has no other continuation function. *)
Definition code (fn : fnref) (context : TurnContext) (a : list value)
    (s : State Bot) : completion Continuation * State Bot :=
  let to := conversation (activity context) in
  match fn with
  | 1%positive =>
      if truthy_opt (name_in context s)
      then
        let s' :=
          sendActivity to
            (default "" (name_in context s) ++ ", you said: " ++
             text (activity context)) s in
        (Returned dontContinue, s')
      else
        let s' := sendActivity to "Hi! What's your name?" s in
        (continueWith name_of namePromptContinuation [] s', s')
  | 2%positive =>
      let s1 := set_name context (text (activity context)) s in
      let s2 :=
        sendActivity to
          ("Nice to meet you " ++ default "" (name_in context s1) ++
           "! You can say stuff to me and I'll echo it back.") s1 in
      (Returned dontContinue, s2)
  | _ => (Returned dontContinue, s)
  end.

(** The bot configures no [functionNotFound]. *)
Definition handler (h : handlerref) (c : Continuation) (context : TurnContext)
    (s : State Bot) : completion Continuation * State Bot :=
  (Returned dontContinue, s).

(** [continuations.js], lines 23-24: the two registrations, made when the
    module is loaded, with the call stack [stack]; the second is made when
    the first has returned. *)
Definition register_continuations (stack : list (option string)) (s : State Bot)
    : completion unit * State Bot :=
  let first := canContinueWith name_of startContinuation stack s in
  match first.1 with
  | Threw e => (Threw e, first.2)
  | Returned _ =>
      let second := canContinueWith name_of namePromptContinuation stack first.2 in
      match second.1 with
      | Threw e => (Threw e, second.2)
      | Returned _ => (Returned tt, second.2)
      end
  end.

(** The bot once its modules are loaded: nothing stored, nothing sent. *)
Definition loaded (stack : list (option string)) : State Bot :=
  (register_continuations stack (initial (mkBot ∅ ∅ []))).2.

(** [conversationStore.js]. *)
Definition loadConversationState (conversationId : string) (s : State Bot)
    : option (Continuation * object) :=
  storage (world s) !! conversationId.

Definition saveConversationState (conversationId : string)
    (state : Continuation * object) (s : State Bot) : State Bot :=
  set_world
    (mkBot (<[conversationId := state]> (storage (world s)))
           (objects (world s)) (sent (world s)))
    s.

(** [state: {}]: a new object, without [name]. *)
Definition new_object (s : State Bot) : object * State Bot :=
  let o := fresh (dom (objects (world s))) in
  (o, set_world (mkBot (storage (world s)) (<[o := None]> (objects (world s)))
                       (sent (world s))) s).

(** The second half of the [onMessage] handler: the continuation is
    executed with the state object in the context, and what comes next is
    saved; [next()] hands over to the framework. *)
Definition execute_and_save (redirects : nat) (act : Activity)
    (continuation : Continuation) (state : object) (s : State Bot)
    : option (completion unit) * State Bot :=
  let context := mkContext act state in
  let r := continueNow code handler redirects continuation context s in
  match outcome r with
  | None => (None, final r)
  | Some (Threw e) => (Some (Threw e), final r)
  | Some (Returned nextContinuation) =>
      if done nextContinuation
      then
        match continueWith name_of startContinuation [] (final r) with
        | Returned restart =>
            (Some (Returned tt),
             saveConversationState (conversation act) (restart, state) (final r))
        | Threw e => (Some (Threw e), final r)
        end
      else
        (Some (Returned tt),
         saveConversationState (conversation act) (nextContinuation, state) (final r))
  end.

(** [bot.js], lines 12-34: the [onMessage] handler. *)
Definition onMessage (redirects : nat) (act : Activity) (s : State Bot)
    : option (completion unit) * State Bot :=
  match loadConversationState (conversation act) s with
  | Some (continuation, state) => execute_and_save redirects act continuation state s
  | None =>
      match continueWith name_of startContinuation [] s with
      | Returned continuation =>
          let '(state, s') := new_object s in
          execute_and_save redirects act continuation state s'
      | Threw e => (Some (Threw e), s)
      end
  end.

(** [bot.js], lines 36-47: the [onMembersAdded] handler. *)
Definition welcomeText : string := "Hello and welcome!".

Definition onMembersAdded (act : Activity) (s : State Bot) : State Bot :=
  foldl
    (fun s member =>
       if decide (member = recipient act) then s
       else sendActivity (conversation act) welcomeText s)
    s (membersAdded act).

(** The messages of one conversation, one after the other. *)
Definition converse (redirects : nat) (acts : list Activity) (s : State Bot)
    : State Bot :=
  foldl (fun s act => (onMessage redirects act s).2) s acts.

(** The continuation [continueWith(fn)] builds for a function that carries
    [id]. *)
Definition continuing (id : string) : Continuation :=
  mkContinuation false (Some id) (Some []).

(** Both functions are registered: each carries a non-empty identifier that
    the table maps to it. *)
Definition ready (start prompt : string) (s : State Bot) : Prop :=
  start ≠ "" /\ prompt ≠ "" /\
  fn_continuationId s !! startContinuation = Some start /\
  fn_continuationId s !! namePromptContinuation = Some prompt /\
  _continuations s !! start = Some startContinuation /\
  _continuations s !! prompt = Some namePromptContinuation.

(** What the store holds: for each conversation one of the two
    continuations and a state object that exists and is the state object of
    no other conversation. *)
Definition stored (start prompt : string) (s : State Bot) : Prop :=
  forall id c o, storage (world s) !! id = Some (c, o) ->
    (c = continuing start \/ c = continuing prompt) /\
    is_Some (objects (world s) !! o) /\
    forall id' c', storage (world s) !! id' = Some (c', o) -> id' = id.

(** A call stack of the load of [continuations.js], and a message. *)
Definition load_stack : list (option string) :=
  [Some "node_modules/@stevenic/continue-js/lib/index.js";
   Some "continuations.js"; Some "bot.js"].

Definition says (id message : string) : Activity := mkActivity message id "bot" [].

End EchoBot.

(** ** A recovery that retries

    An application whose [functionNotFound] hands back the continuation it
    was given: [(continuation, context) => continuation]. *)
Module Retry.

Definition code (fn : fnref) (context : unit) (a : list value) (s : State unit)
    : completion Continuation * State unit :=
  (Returned dontContinue, s).

Definition handler (h : handlerref) (c : Continuation) (context : unit)
    (s : State unit) : completion Continuation * State unit :=
  (Returned c, s).

Definition retrying : State unit :=
  configureContinue (mkPartial None (Some (CustomFunctionNotFound 1%positive)))
    (initial tt).

Definition lost : Continuation := mkContinuation false (Some "gone.js#old") None.

End Retry.

(** ** Further notions used by the properties *)

(** Whether [c] occurs in [s]. *)
Fixpoint occurs (c : Ascii.ascii) (s : string) : bool :=
  match s with
  | EmptyString => false
  | String c' rest => if decide (c' = c) then true else occurs c rest
  end.

(** The table and the identifiers attached agree: a function that is in
    the table carries an identifier, and a function that is in the table
    under a non-empty identifier carries that one. *)
Definition consistent {W : Type} (s : State W) : Prop :=
  forall id fn, _continuations s !! id = Some fn ->
    is_Some (fn_continuationId s !! fn) /\
    (id ≠ "" -> fn_continuationId s !! fn = Some id).

(** The events of a redirect: calls of [functionNotFound] with [context]. *)
Definition redirected {Ctx : Type} (context : Ctx) (cs : list Continuation)
    : list (event Ctx) :=
  map (fun c => CalledFunctionNotFound c context) cs.

(** * Properties *)

Section Facts.

Context {W Ctx : Type}.
Variable fn_name : fnref -> string.
Variable fn_code :
  fnref -> Ctx -> list value -> State W -> completion Continuation * State W.
Variable handler_code :
  handlerref -> Continuation -> Ctx -> State W -> completion Continuation * State W.

Implicit Types (s : State W) (c : Continuation) (context : Ctx)
  (fn : fnref) (id : string) (a : list value) (n : nat).

(** ** Truthiness *)

Lemma truthy_true id : truthy id = true <-> id ≠ "".
Proof. destruct id; simpl; split; congruence. Qed.

Lemma truthy_false id : truthy id = false <-> id = "".
Proof. destruct id; simpl; split; congruence. Qed.

Lemma truthy_opt_false (o : option string) :
  truthy_opt o = false <-> o = None \/ o = Some "".
Proof.
  destruct o as [id|]; simpl.
  - rewrite truthy_false. split; [intros ->; auto | intros [|[= ->]]; done].
  - split; auto.
Qed.

(** The identifier built by the module's own policy always contains the
    separator, so it is never the empty string. *)
Lemma default_getContinuationId_truthy (file name : string) :
  truthy (default_getContinuationId file name) = true.
Proof. unfold default_getContinuationId. induction file; done. Qed.

Lemma default_config_never_empty (file name : string) :
  getContinuationId default_config file name ≠ "".
Proof. apply truthy_true, default_getContinuationId_truthy. Qed.

(** ** The caller's file *)

(** Frames of the file [canContinueWith] lives in are skipped: the caller's
    file is the file of the first frame that lies elsewhere. *)
Lemma callerFile_skips_own_frames (own file : string) (k : nat)
    (rest : list (option string)) :
  own ≠ file ->
  callerFile (Some own :: replicate k (Some own) ++ Some file :: rest) = file.
Proof.
  intros Hne. simpl. generalize "" at 1. induction k as [|k IH]; intros last; simpl.
  - by rewrite decide_False.
  - rewrite decide_True by done. apply IH.
Qed.

(** When every further frame lies in that file too, the caller's file is
    that file. *)
Lemma callerFile_own_frames_only (own : string) (k : nat) :
  callerFile (Some own :: replicate (S k) (Some own)) = own.
Proof.
  simpl. rewrite decide_True by done.
  induction k as [|k IH]; simpl; [done|]. by rewrite decide_True.
Qed.

(** Without a further frame, it is the empty string. *)
Lemma callerFile_no_caller (frame : option string) :
  callerFile [] = "" /\ callerFile [frame] = "".
Proof. done. Qed.

(** ** One step of [continueNow] *)

(** On a continuation that is not done and has a non-empty identifier,
    [continueNow] looks the identifier up. *)
Lemma continueNow_lookup n c id context s :
  done c = false -> continuationId c = Some id -> id ≠ "" ->
  continueNow fn_code handler_code n c context s =
    match _continuations s !! id with
    | Some cfn =>
        let r := fn_code cfn context (default [] (args c)) s in
        mkRun (Some r.1) r.2 [CalledFunction cfn context (default [] (args c))]
    | None =>
        let r := call_functionNotFound handler_code c context s in
        after (CalledFunctionNotFound c context)
          match r.1 with
          | Threw e => mkRun (Some (Threw e)) r.2 []
          | Returned redirect =>
              if done redirect
              then mkRun (Some (Returned redirect)) r.2 []
              else
                match n with
                | O => mkRun None r.2 []
                | S m => continueNow fn_code handler_code m redirect context r.2
                end
          end
    end.
Proof.
  intros Hd Hid Hne. apply truthy_true in Hne.
  destruct n; simpl; rewrite Hd, Hid, Hne;
    (destruct (_continuations s !! id);
     [by destruct (fn_code _ _ _ _) | by destruct (call_functionNotFound _ _ _ _)]).
Qed.

(** On any other continuation it makes no call. *)
Lemma continueNow_finished n c context s :
  done c = true \/ truthy_opt (continuationId c) = false ->
  continueNow fn_code handler_code n c context s = finished s.
Proof.
  intros H. destruct n; simpl;
    (destruct (done c); [done|]; destruct H as [|H]; [done|];
     destruct (continuationId c) as [id|]; [|done]; simpl in H; by rewrite H).
Qed.

(** A run that ended keeps its result when more redirects are allowed. *)
Lemma continueNow_more_redirects n :
  forall c context s,
    is_Some (outcome (continueNow fn_code handler_code n c context s)) ->
    forall m, n <= m ->
      continueNow fn_code handler_code m c context s =
      continueNow fn_code handler_code n c context s.
Proof.
  induction n as [|n IH]; intros c context s Hsome m Hle.
  - destruct m as [|m]; [done|]. revert Hsome. simpl.
    destruct (done c); [done|]. destruct (continuationId c) as [id|]; [|done].
    destruct (truthy id); [|done].
    destruct (_continuations s !! id); [done|].
    destruct (call_functionNotFound _ c context s) as [[redirect|e] s']; [|done].
    destruct (done redirect); [done|]. simpl. by intros [? [=]].
  - destruct m as [|m]; [lia|]. revert Hsome. simpl.
    destruct (done c); [done|]. destruct (continuationId c) as [id|]; [|done].
    destruct (truthy id); [|done].
    destruct (_continuations s !! id); [done|].
    destruct (call_functionNotFound _ c context s) as [[redirect|e] s']; [|done].
    destruct (done redirect); [done|]. simpl. intros Hsome.
    f_equal. apply IH; [done | lia].
Qed.

(** ** Registration, case by case *)

(** A function that carries a non-empty identifier is refused. *)
Lemma canContinueWith_duplicate fn stack s :
  truthy_opt (fn_continuationId s !! fn) = true ->
  canContinueWith fn_name fn stack s =
    (Threw (DuplicateRegistration (fn_name fn) (callerFile stack)), s).
Proof. intros H. unfold canContinueWith. by rewrite H. Qed.

Lemma canContinueWith_collision fn stack s id other :
  truthy_opt (fn_continuationId s !! fn) = false ->
  getContinuationId (_config s) (callerFile stack) (fn_name fn) = id ->
  _continuations s !! id = Some other ->
  canContinueWith fn_name fn stack s =
    (Threw (IdentifierCollision id),
     set_fn_continuationId (<[fn := id]> (fn_continuationId s)) s).
Proof.
  intros H Hid Hin. unfold canContinueWith. rewrite H, Hid. simpl. by rewrite Hin.
Qed.

Lemma canContinueWith_fresh fn stack s id :
  truthy_opt (fn_continuationId s !! fn) = false ->
  getContinuationId (_config s) (callerFile stack) (fn_name fn) = id ->
  _continuations s !! id = None ->
  canContinueWith fn_name fn stack s =
    (Returned fn,
     mkState (<[id := fn]> (_continuations s)) (_config s)
             (<[fn := id]> (fn_continuationId s)) (world s)).
Proof.
  intros H Hid Hin. unfold canContinueWith. rewrite H, Hid. simpl. by rewrite Hin.
Qed.

(** A registration that returns went through the third case. *)
Lemma canContinueWith_returned fn stack s x s1 :
  canContinueWith fn_name fn stack s = (Returned x, s1) ->
  let id := getContinuationId (_config s) (callerFile stack) (fn_name fn) in
  x = fn /\
  truthy_opt (fn_continuationId s !! fn) = false /\
  _continuations s !! id = None /\
  s1 = mkState (<[id := fn]> (_continuations s)) (_config s)
               (<[fn := id]> (fn_continuationId s)) (world s).
Proof.
  unfold canContinueWith.
  destruct (truthy_opt (fn_continuationId s !! fn)) eqn:Ht; [done|]. simpl.
  destruct (_continuations s !! _) eqn:Hin; [done|].
  intros [= <- <-]. done.
Qed.

(** ** What the operations keep *)

Lemma registry_kept_refl s : registry_kept s s.
Proof. by intros id fn. Qed.

Lemma registry_kept_trans s1 s2 s3 :
  registry_kept s1 s2 -> registry_kept s2 s3 -> registry_kept s1 s3.
Proof. intros H12 H23 id fn H. by apply H23, H12. Qed.

Lemma identifiers_kept_refl s : identifiers_kept s s.
Proof. by intros fn id. Qed.

Lemma identifiers_kept_trans s1 s2 s3 :
  identifiers_kept s1 s2 -> identifiers_kept s2 s3 -> identifiers_kept s1 s3.
Proof. intros H12 H23 fn id H Hne. by apply H23; [apply H12|]. Qed.

(** A registration, returning or throwing, adds at most one entry to the
    table, under an identifier the table did not have. *)
Lemma canContinueWith_registry_kept fn stack s :
  registry_kept s (canContinueWith fn_name fn stack s).2.
Proof.
  intros id other Hin. unfold canContinueWith.
  destruct (truthy_opt (fn_continuationId s !! fn)); [done|]. simpl.
  destruct (_continuations s !! getContinuationId _ _ _) eqn:Hnew; simpl; [done|].
  rewrite lookup_insert_ne; [done|]. intros <-. congruence.
Qed.

(** A registration writes the [continuationId] of [fn] only when [fn]
    carries none or the empty one. *)
Lemma canContinueWith_identifiers_kept fn stack s :
  identifiers_kept s (canContinueWith fn_name fn stack s).2.
Proof.
  intros other id Hin Hne. unfold canContinueWith.
  destruct (truthy_opt (fn_continuationId s !! fn)) eqn:Ht; [done|].
  assert (fn ≠ other) as Hother.
  { intros ->. rewrite Hin in Ht. simpl in Ht. by apply truthy_false in Ht. }
  simpl. destruct (_continuations s !! getContinuationId _ _ _); simpl;
    by rewrite lookup_insert_ne.
Qed.

(** [continueNow] changes the state through user code only. *)
Lemma continueNow_respects (R : State W -> State W -> Prop) :
  (forall s, R s s) ->
  (forall s1 s2 s3, R s1 s2 -> R s2 s3 -> R s1 s3) ->
  user_code_respects fn_code handler_code R ->
  forall n c context s, R s (final (continueNow fn_code handler_code n c context s)).
Proof.
  intros Hrefl Htrans [Hfn Hh]. induction n as [|n IH]; intros c context s; simpl.
  - destruct (done c); [done|]. destruct (continuationId c) as [id|]; [|done].
    destruct (truthy id); [|done].
    destruct (_continuations s !! id) as [cfn|].
    + specialize (Hfn cfn context (default [] (args c)) s).
      by destruct (fn_code _ _ _ _).
    + assert (R s (call_functionNotFound handler_code c context s).2) as Hcall.
      { unfold call_functionNotFound. destruct (functionNotFound _); [done|apply Hh]. }
      destruct (call_functionNotFound _ _ _ _) as [[redirect|e] s']; [|done].
      by destruct (done redirect).
  - destruct (done c); [done|]. destruct (continuationId c) as [id|]; [|done].
    destruct (truthy id); [|done].
    destruct (_continuations s !! id) as [cfn|].
    + specialize (Hfn cfn context (default [] (args c)) s).
      by destruct (fn_code _ _ _ _).
    + assert (R s (call_functionNotFound handler_code c context s).2) as Hcall.
      { unfold call_functionNotFound. destruct (functionNotFound _); [done|apply Hh]. }
      destruct (call_functionNotFound _ _ _ _) as [[redirect|e] s']; [|done].
      destruct (done redirect); [done|]. simpl in *. eapply Htrans; [exact Hcall|apply IH].
Qed.

(** [configureContinue] replaces [_config] and nothing else. *)
Lemma configureContinue_registry_kept config s :
  registry_kept s (configureContinue config s).
Proof. by intros id fn. Qed.

Lemma configureContinue_identifiers_kept config s :
  identifiers_kept s (configureContinue config s).
Proof. by intros fn id. Qed.

Lemma exec_registry_kept op s :
  user_code_respects fn_code handler_code registry_kept ->
  registry_kept s (exec fn_name fn_code handler_code op s).
Proof.
  intros Huser. destruct op; simpl.
  - apply canContinueWith_registry_kept.
  - apply registry_kept_refl.
  - apply continueNow_respects;
      [apply registry_kept_refl | apply registry_kept_trans | done].
  - apply registry_kept_refl.
  - apply configureContinue_registry_kept.
Qed.

Lemma exec_identifiers_kept op s :
  user_code_respects fn_code handler_code identifiers_kept ->
  identifiers_kept s (exec fn_name fn_code handler_code op s).
Proof.
  intros Huser. destruct op; simpl.
  - apply canContinueWith_identifiers_kept.
  - apply identifiers_kept_refl.
  - apply continueNow_respects;
      [apply identifiers_kept_refl | apply identifiers_kept_trans | done].
  - apply identifiers_kept_refl.
  - apply configureContinue_identifiers_kept.
Qed.

Lemma exec_all_registry_kept ops :
  user_code_respects fn_code handler_code registry_kept ->
  forall s, registry_kept s (exec_all fn_name fn_code handler_code ops s).
Proof.
  intros Huser. induction ops as [|op ops IH]; intros s; simpl.
  - apply registry_kept_refl.
  - eapply registry_kept_trans; [by apply exec_registry_kept | apply IH].
Qed.

Lemma exec_all_identifiers_kept ops :
  user_code_respects fn_code handler_code identifiers_kept ->
  forall s, identifiers_kept s (exec_all fn_name fn_code handler_code ops s).
Proof.
  intros Huser. induction ops as [|op ops IH]; intros s; simpl.
  - apply identifiers_kept_refl.
  - eapply identifiers_kept_trans; [by apply exec_identifiers_kept | apply IH].
Qed.

(** ** Building and executing continuations *)

(** What [continueWith] answers is decided by the truthiness of the
    function's [continuationId]. *)
Lemma continueWith_truthy fn a s id :
  fn_continuationId s !! fn = Some id -> id ≠ "" ->
  continueWith fn_name fn a s = Returned (mkContinuation false (Some id) (Some a)).
Proof.
  intros Hid Hne. unfold continueWith. rewrite Hid.
  apply truthy_true in Hne. by rewrite Hne.
Qed.

Lemma continueWith_falsy fn a s :
  truthy_opt (fn_continuationId s !! fn) = false ->
  continueWith fn_name fn a s = Threw (UnregisteredUnit (fn_name fn)).
Proof.
  unfold continueWith. destruct (fn_continuationId s !! fn) as [id|]; simpl; [|done].
  by intros ->.
Qed.

(** Executing a continuation whose identifier is in the table calls the
    function found there, once, and hands back what it returned. *)
Lemma continueNow_found n c id cfn context s :
  done c = false -> continuationId c = Some id -> id ≠ "" ->
  _continuations s !! id = Some cfn ->
  continueNow fn_code handler_code n c context s =
    mkRun (Some (fn_code cfn context (default [] (args c)) s).1)
          (fn_code cfn context (default [] (args c)) s).2
          [CalledFunction cfn context (default [] (args c))].
Proof.
  intros Hd Hid Hne Hin. rewrite (continueNow_lookup n c id) by done. by rewrite Hin.
Qed.

(** A function registered under a non-empty identifier is registered under
    it in every state that kept the table and the identifiers. *)
Lemma registered_stays fn stack s s1 s2 :
  canContinueWith fn_name fn stack s = (Returned fn, s1) ->
  getContinuationId (_config s) (callerFile stack) (fn_name fn) ≠ "" ->
  registry_kept s1 s2 -> identifiers_kept s1 s2 ->
  let id := getContinuationId (_config s) (callerFile stack) (fn_name fn) in
  fn_continuationId s2 !! fn = Some id /\ _continuations s2 !! id = Some fn.
Proof.
  intros Hreg Hne Hr Hi id.
  apply canContinueWith_returned in Hreg as (_ & _ & _ & ->). split.
  - apply Hi; [|done]. simpl. apply lookup_insert_eq.
  - apply Hr. simpl. apply lookup_insert_eq.
Qed.

(** C3: [continueNow] on a continuation that is done, or that is not done
    but has no identifier, returns the continuation [{done: true}], with no
    identifier and no arguments, at once: it calls no registered function and
    no [functionNotFound], and leaves the state as it was.  Executing the
    continuation it returned gives the same again. *)
Theorem continueNow_terminal n c context s :
  done c = true \/ continuationId c = None ->
  continueNow fn_code handler_code n c context s =
    mkRun (Some (Returned (mkContinuation true None None))) s [] /\
  continueNow fn_code handler_code n (mkContinuation true None None) context s =
    mkRun (Some (Returned (mkContinuation true None None))) s [].
Proof.
  intros H.
  assert (done c = true \/ truthy_opt (continuationId c) = false) as H'.
  { destruct H as [H | H]; [auto | rewrite H; auto]. }
  rewrite (continueNow_finished n c) by done.
  rewrite (continueNow_finished n (mkContinuation true None None)) by auto. done.
Qed.

(** C10: [continueNow] on a continuation that is not done and whose
    identifier is the empty string returns the continuation [{done: true}],
    with no identifier and no arguments, without calling any registered
    function or [functionNotFound] and without changing the state, whatever
    the table holds (also an entry under the empty string): exactly what it
    does when the identifier is absent. *)
Theorem continueNow_empty_identifier n (oa : option (list value)) context s :
  continueNow fn_code handler_code n (mkContinuation false (Some "") oa) context s =
    mkRun (Some (Returned (mkContinuation true None None))) s [] /\
  continueNow fn_code handler_code n (mkContinuation false None oa) context s =
    mkRun (Some (Returned (mkContinuation true None None))) s [].
Proof. by destruct n. Qed.

(** C5 (as amended): [continueWith(fn, ...args)] throws, and what it throws
    is the [UnregisteredUnit] error naming [fn], if and only if [fn] carries
    no identifier or the empty one; when [fn] carries a non-empty identifier
    it returns exactly [{done: false, continuationId, args}]. *)
Theorem continueWith_spec fn a s :
  (continueWith fn_name fn a s = Threw (UnregisteredUnit (fn_name fn)) <->
   fn_continuationId s !! fn = None \/ fn_continuationId s !! fn = Some "") /\
  (forall e, continueWith fn_name fn a s = Threw e -> e = UnregisteredUnit (fn_name fn)) /\
  (forall id, fn_continuationId s !! fn = Some id -> id ≠ "" ->
     continueWith fn_name fn a s = Returned (mkContinuation false (Some id) (Some a))).
Proof.
  split; [|split].
  - rewrite <- truthy_opt_false. split; [|apply continueWith_falsy].
    unfold continueWith. destruct (fn_continuationId s !! fn) as [id|]; simpl; [|done].
    by destruct (truthy id).
  - intros e. unfold continueWith.
    destruct (fn_continuationId s !! fn) as [id|]; [destruct (truthy id)|]; congruence.
  - intros id. apply continueWith_truthy.
Qed.

(** C1 (as amended): let [fn] be registered by a [canContinueWith] that
    returned, under a non-empty identifier.  Then, in that state and in every
    later one that kept the table's entries and the identifiers attached,
    [continueWith(fn, ...a)] returns a continuation, and [continueNow] on it
    with a context calls [fn] exactly once, with the context followed by [a],
    and returns what [fn] returned, as it is; on the same continuation
    without [args], [fn] is called with the context alone. *)
Theorem continueWith_then_continueNow fn stack s s1 s2 a context n :
  canContinueWith fn_name fn stack s = (Returned fn, s1) ->
  getContinuationId (_config s) (callerFile stack) (fn_name fn) ≠ "" ->
  registry_kept s1 s2 -> identifiers_kept s1 s2 ->
  let id := getContinuationId (_config s) (callerFile stack) (fn_name fn) in
  continueWith fn_name fn a s2 = Returned (mkContinuation false (Some id) (Some a)) /\
  continueNow fn_code handler_code n (mkContinuation false (Some id) (Some a)) context s2 =
    mkRun (Some (fn_code fn context a s2).1) (fn_code fn context a s2).2
          [CalledFunction fn context a] /\
  continueNow fn_code handler_code n (mkContinuation false (Some id) None) context s2 =
    mkRun (Some (fn_code fn context [] s2).1) (fn_code fn context [] s2).2
          [CalledFunction fn context []].
Proof.
  intros Hreg Hne Hr Hi id.
  destruct (registered_stays fn stack s s1 s2 Hreg Hne Hr Hi) as [Hid Hin].
  fold id in Hid, Hin. split; [|split].
  - by apply continueWith_truthy.
  - by rewrite (continueNow_found n _ id fn).
  - by rewrite (continueNow_found n _ id fn).
Qed.

(** C2 (as amended): let a continuation be not done, with a non-empty
    identifier that is not in the table.  Under the module's own
    [functionNotFound], [continueNow] throws the [ContinuationNotFound] error
    naming the identifier.  Under a configured one, that function is called
    with the continuation and the context; what it throws is thrown on; a
    redirect that is done is returned as it is; any other redirect is
    executed by [continueNow] itself, in the state the function left.  So a
    redirect to a registered function that returns [{done: true}] yields
    [{done: true}]. *)
Theorem continueNow_not_found n c id context s :
  done c = false -> continuationId c = Some id -> id ≠ "" ->
  _continuations s !! id = None ->
  match functionNotFound (_config s) with
  | DefaultFunctionNotFound =>
      continueNow fn_code handler_code n c context s =
        mkRun (Some (Threw (ContinuationNotFound (Some id)))) s
              [CalledFunctionNotFound c context]
  | CustomFunctionNotFound h =>
      match handler_code h c context s with
      | (Threw e, s') =>
          continueNow fn_code handler_code n c context s =
            mkRun (Some (Threw e)) s' [CalledFunctionNotFound c context]
      | (Returned redirect, s') =>
          if done redirect
          then
            continueNow fn_code handler_code n c context s =
              mkRun (Some (Returned redirect)) s' [CalledFunctionNotFound c context]
          else
            continueNow fn_code handler_code (S n) c context s =
              after (CalledFunctionNotFound c context)
                (continueNow fn_code handler_code n redirect context s') /\
            forall rid cfn s'',
              continuationId redirect = Some rid -> rid ≠ "" ->
              _continuations s' !! rid = Some cfn ->
              fn_code cfn context (default [] (args redirect)) s' =
                (Returned dontContinue, s'') ->
              continueNow fn_code handler_code (S n) c context s =
                mkRun (Some (Returned dontContinue)) s''
                  [CalledFunctionNotFound c context;
                   CalledFunction cfn context (default [] (args redirect))]
      end
  end.
Proof.
  intros Hd Hid Hne Hin.
  pose proof (continueNow_lookup n c id context s Hd Hid Hne) as Hn.
  pose proof (continueNow_lookup (S n) c id context s Hd Hid Hne) as HSn.
  rewrite Hin in Hn, HSn. unfold call_functionNotFound in Hn, HSn.
  destruct (functionNotFound (_config s)) as [|h].
  - rewrite Hn. simpl. by rewrite Hid.
  - destruct (handler_code h c context s) as [[redirect|e] s']; simpl in *; [|done].
    destruct (done redirect) eqn:Hdr; [done|]. split; [done|].
    intros rid cfn s'' Hrid Hrne Hrin Hcode. rewrite HSn.
    rewrite (continueNow_found n redirect rid cfn) by done. by rewrite Hcode.
Qed.

(** ** Registering *)

(** C4 (as amended): once a [canContinueWith(fn)] has returned, having
    attached a non-empty identifier, a later [canContinueWith(fn)] throws the
    [DuplicateRegistration] error, in every state that kept the identifiers
    attached; and [canContinueWith(g)] for a function [g] that carries no
    identifier yet, for which the policy computes the identifier under which
    [f] was registered, throws the [IdentifierCollision] error naming that
    identifier, in every state that kept the table's entries.  Both are
    thrown to the caller. *)
Theorem canContinueWith_conflicts :
  (forall fn stack s s1 s2 stack',
     canContinueWith fn_name fn stack s = (Returned fn, s1) ->
     getContinuationId (_config s) (callerFile stack) (fn_name fn) ≠ "" ->
     identifiers_kept s1 s2 ->
     canContinueWith fn_name fn stack' s2 =
       (Threw (DuplicateRegistration (fn_name fn) (callerFile stack')), s2)) /\
  (forall f g stack s s1 s2 stack',
     canContinueWith fn_name f stack s = (Returned f, s1) ->
     registry_kept s1 s2 ->
     let id := getContinuationId (_config s) (callerFile stack) (fn_name f) in
     truthy_opt (fn_continuationId s2 !! g) = false ->
     getContinuationId (_config s2) (callerFile stack') (fn_name g) = id ->
     canContinueWith fn_name g stack' s2 =
       (Threw (IdentifierCollision id),
        set_fn_continuationId (<[g := id]> (fn_continuationId s2)) s2)).
Proof.
  split.
  - intros fn stack s s1 s2 stack' Hreg Hne Hi.
    apply canContinueWith_duplicate.
    apply canContinueWith_returned in Hreg as (_ & _ & _ & ->).
    erewrite Hi; [| |exact Hne].
    + simpl. by apply truthy_true.
    + simpl. apply lookup_insert_eq.
  - intros f g stack s s1 s2 stack' Hreg Hr id Hfalsy Hid.
    apply (canContinueWith_collision g stack' s2 id f Hfalsy Hid).
    apply canContinueWith_returned in Hreg as (_ & _ & _ & ->).
    apply Hr. simpl. apply lookup_insert_eq.
Qed.

(** C6 (as amended): a [canContinueWith(fn)] that returns, returns [fn],
    has attached the computed identifier to [fn], and from then on, whatever
    is called, the table maps that identifier to [fn]; when the identifier is
    not the empty string, [fn] keeps it attached whatever is called. *)
Theorem canContinueWith_registers fn stack s x s1 :
  canContinueWith fn_name fn stack s = (Returned x, s1) ->
  user_code_respects fn_code handler_code registry_kept ->
  user_code_respects fn_code handler_code identifiers_kept ->
  let id := getContinuationId (_config s) (callerFile stack) (fn_name fn) in
  x = fn /\
  fn_continuationId s1 !! fn = Some id /\
  (forall ops,
     _continuations (exec_all fn_name fn_code handler_code ops s1) !! id = Some fn) /\
  (id ≠ "" ->
   forall ops,
     fn_continuationId (exec_all fn_name fn_code handler_code ops s1) !! fn = Some id).
Proof.
  intros Hreg Hr Hi id.
  apply canContinueWith_returned in Hreg as (-> & _ & _ & ->). fold id.
  split; [done|]. split; [apply lookup_insert_eq|]. split.
  - intros ops. apply (exec_all_registry_kept ops Hr). apply lookup_insert_eq.
  - intros Hne ops. apply (exec_all_identifiers_kept ops Hi); [|done].
    apply lookup_insert_eq.
Qed.

(** C7: the table only grows.  An entry that is in the table stays in it,
    with the same function, through any sequence of calls of the library:
    registrations that return or throw, [continueWith], [continueNow],
    [dontContinue], [configureContinue].  User code run by [continueNow]
    reaches the table, which is private to the module, through these calls
    only. *)
Theorem registry_append_only ops s id fn :
  user_code_respects fn_code handler_code registry_kept ->
  _continuations s !! id = Some fn ->
  _continuations (exec_all fn_name fn_code handler_code ops s) !! id = Some fn.
Proof. intros Huser Hin. by apply (exec_all_registry_kept ops Huser). Qed.

(** C9 (as amended): let [canContinueWith(g)] compute, for a function [g]
    without identifier, a non-empty identifier that the table maps to [f].
    It throws the [IdentifierCollision] error, and when it throws the
    identifier is already attached to [g], while the table is as before and
    does not hold [g] if it did not.  A later [continueWith(g, ...a)]
    returns a continuation, and [continueNow] on it calls [f], once, with the
    context and [a]: neither [g] nor [functionNotFound]. *)
Theorem collision_attaches_identifier f g stack s id a context n :
  truthy_opt (fn_continuationId s !! g) = false ->
  getContinuationId (_config s) (callerFile stack) (fn_name g) = id ->
  id ≠ "" ->
  _continuations s !! id = Some f ->
  (forall i, _continuations s !! i ≠ Some g) ->
  let s1 := (canContinueWith fn_name g stack s).2 in
  (canContinueWith fn_name g stack s).1 = Threw (IdentifierCollision id) /\
  fn_continuationId s1 !! g = Some id /\
  _continuations s1 = _continuations s /\
  (forall i, _continuations s1 !! i ≠ Some g) /\
  continueWith fn_name g a s1 = Returned (mkContinuation false (Some id) (Some a)) /\
  continueNow fn_code handler_code n (mkContinuation false (Some id) (Some a)) context s1 =
    mkRun (Some (fn_code f context a s1).1) (fn_code f context a s1).2
          [CalledFunction f context a].
Proof.
  intros Hfalsy Hid Hne Hin Hout s1. unfold s1.
  rewrite (canContinueWith_collision g stack s id f Hfalsy Hid Hin). simpl.
  split; [done|]. split; [apply lookup_insert_eq|]. split; [done|]. split; [done|].
  split.
  - apply continueWith_truthy; [apply lookup_insert_eq | done].
  - by rewrite (continueNow_found n _ id f).
Qed.

(** ** Storing and reloading *)

Lemma fromJSON_toJSON c : fromJSON (toJSON c) = Some c.
Proof. by destruct c as [d [id|] [a|]]. Qed.

(** C8: a continuation that is not done, written to the structured-data
    format and read back, is one that [continueNow] treats as the original:
    the same calls, the same result, the same state left. *)
Theorem stored_continuation_roundtrip c :
  done c = false ->
  exists c',
    fromJSON (toJSON c) = Some c' /\
    forall n context s,
      continueNow fn_code handler_code n c' context s =
      continueNow fn_code handler_code n c context s.
Proof. intros _. exists c. split; [apply fromJSON_toJSON | done]. Qed.

End Facts.

(** * The sample application *)

Import Sample.

(** ** Its code stays within the library's operations *)

Lemma add_world_registry_kept k (s : State nat) : registry_kept s (add_world k s).
Proof. by intros id fn. Qed.

Lemma add_world_identifiers_kept k (s : State nat) : identifiers_kept s (add_world k s).
Proof. by intros fn id. Qed.

Lemma sample_keeps_registry : user_code_respects code handler registry_kept.
Proof.
  split; [|intros; apply registry_kept_refl].
  intros fn maxIterations a s.
  destruct (decide (fn = lazyStep)) as [->|Hother].
  - pose proof (canContinueWith_registry_kept name_of stepA from_bot s) as H.
    unfold code, lazyStep. simpl.
    by destruct (canContinueWith name_of stepA from_bot s).1.
  - unfold code. repeat case_match; simpl; subst;
      try apply registry_kept_refl; try apply add_world_registry_kept;
      by destruct Hother.
Qed.

Lemma sample_keeps_identifiers : user_code_respects code handler identifiers_kept.
Proof.
  split; [|intros; apply identifiers_kept_refl].
  intros fn maxIterations a s.
  destruct (decide (fn = lazyStep)) as [->|Hother].
  - pose proof (canContinueWith_identifiers_kept name_of stepA from_bot s) as H.
    unfold code, lazyStep. simpl.
    by destruct (canContinueWith name_of stepA from_bot s).1.
  - unfold code. repeat case_match; simpl; subst;
      try apply identifiers_kept_refl; try apply add_world_identifiers_kept;
      by destruct Hother.
Qed.

(** ** The README's test *)

(** Registered from [test.js], [testContinuation] gets the identifier the
    module's own policy builds. *)
Example testContinuation_registered :
  canContinueWith name_of testContinuation from_test (initial 0) =
    (Returned testContinuation, tested) /\
  _continuations tested !! "test.js#testContinuation" = Some testContinuation.
Proof. split; reflexivity. Qed.

(** Started from [continueWith(testContinuation)] with [maxIterations = 5],
    the loop calls [testContinuation] five times and stops on [{done: true}]. *)
Example readme_test_five_calls :
  exists s',
    loop 10 (mkContinuation false (Some "test.js#testContinuation") (Some [])) 5 tested =
      (dontContinue, s', replicate 5 (CalledFunction testContinuation 5 [])) /\
    world s' = 5.
Proof. eexists. split; reflexivity. Qed.

(** A function registered under the empty string is never called: the
    continuation naming it ends the chain. *)
Example empty_identifier_registered_not_called :
  _continuations nameless !! "" = Some anonymousA /\
  continueNow code handler 0 (mkContinuation false (Some "") (Some [])) 5 nameless =
    mkRun (Some (Returned (mkContinuation true None None))) nameless [].
Proof. split; reflexivity. Qed.

(** ** The properties at work on the sample *)

(** For C1: [testContinuation], registered from [test.js], continued with
    an argument once the start-up is over. *)
Lemma continueWith_then_continueNow_sample :
  canContinueWith name_of testContinuation from_test (initial 0) =
    (Returned testContinuation, tested) /\
  default_getContinuationId "test.js" "testContinuation" ≠ "" /\
  registry_kept tested (exec_all name_of code handler start_up tested) /\
  identifiers_kept tested (exec_all name_of code handler start_up tested) /\
  continueWith name_of testContinuation [VNum 7]
    (exec_all name_of code handler start_up tested) = Returned chained /\
  outcome (continueNow code handler 0 chained 5
             (exec_all name_of code handler start_up tested)) =
    Some (Returned (mkContinuation false (Some "test.js#testContinuation") (Some []))) /\
  calls (continueNow code handler 0 chained 5
           (exec_all name_of code handler start_up tested)) =
    [CalledFunction testContinuation 5 [VNum 7]].
Proof.
  assert (default_getContinuationId "test.js" "testContinuation" ≠ "") as Hne by done.
  pose proof (exec_all_registry_kept name_of code handler start_up
                sample_keeps_registry tested) as Hr.
  pose proof (exec_all_identifiers_kept name_of code handler start_up
                sample_keeps_identifiers tested) as Hi.
  destruct (continueWith_then_continueNow name_of code handler
              testContinuation from_test (initial 0) tested
              (exec_all name_of code handler start_up tested) [VNum 7] 5 0
              eq_refl Hne Hr Hi)
    as (Hwith & Hnow & _).
  split; [reflexivity|]. split; [exact Hne|]. split; [exact Hr|]. split; [exact Hi|].
  split; [exact Hwith|].
  split; [exact (f_equal outcome Hnow) | exact (f_equal calls Hnow)].
Defined.

(** For C2: the README's recovery; [missing] names a function that is no
    longer there, and [functionNotFound] redirects to [errorContinuation]. *)
Lemma continueNow_not_found_sample :
  done missing = false /\ continuationId missing = Some "gone.js#old" /\
  "gone.js#old" ≠ "" /\
  _continuations recovering !! "gone.js#old" = None /\
  continueNow code handler 1 missing 5 recovering =
    mkRun (Some (Returned dontContinue)) recovering
      [CalledFunctionNotFound missing 5; CalledFunction errorContinuation 5 []].
Proof.
  assert ("gone.js#old" ≠ "") as Hne by done.
  pose proof (continueNow_not_found code handler 0 missing "gone.js#old" 5 recovering
                eq_refl eq_refl Hne eq_refl) as H.
  hnf in H. destruct H as [_ H].
  split; [reflexivity|]. split; [reflexivity|]. split; [exact Hne|].
  split; [reflexivity|].
  apply (H "bot.js#errorContinuation" errorContinuation recovering);
    [reflexivity | done | reflexivity | reflexivity].
Defined.

(** For C3: a done continuation that still names a registered function, and
    one that is not done and names nothing. *)
Lemma continueNow_terminal_sample :
  (continueNow code handler 0
     (mkContinuation true (Some "test.js#testContinuation") (Some [])) 5 tested =
     mkRun (Some (Returned (mkContinuation true None None))) tested []) /\
  (continueNow code handler 0 (mkContinuation false None (Some [VNum 7])) 5 tested =
     mkRun (Some (Returned (mkContinuation true None None))) tested []).
Proof.
  split.
  - apply (continueNow_terminal code handler 0
             (mkContinuation true (Some "test.js#testContinuation") (Some [])) 5 tested).
    left. reflexivity.
  - apply (continueNow_terminal code handler 0
             (mkContinuation false None (Some [VNum 7])) 5 tested).
    right. reflexivity.
Defined.

(** For C4: [testContinuation] registered a second time, from another file
    and after other calls; [stepB] registered after [stepA], both called
    [step] in [bot.js]. *)
Lemma canContinueWith_conflicts_sample :
  (canContinueWith name_of testContinuation from_test (initial 0) =
     (Returned testContinuation, tested) /\
   identifiers_kept tested (exec_all name_of code handler start_up tested) /\
   canContinueWith name_of testContinuation from_other
     (exec_all name_of code handler start_up tested) =
     (Threw (DuplicateRegistration "testContinuation" "other.js"),
      exec_all name_of code handler start_up tested)) /\
  (canContinueWith name_of stepA from_bot (initial 0) = (Returned stepA, stepped) /\
   registry_kept stepped stepped /\
   truthy_opt (fn_continuationId stepped !! stepB) = false /\
   canContinueWith name_of stepB from_bot stepped =
     (Threw (IdentifierCollision "bot.js#step"), collided)).
Proof.
  destruct (canContinueWith_conflicts (W := nat) name_of) as [Hsame Hother].
  assert (default_getContinuationId "test.js" "testContinuation" ≠ "") as Hne by done.
  pose proof (exec_all_identifiers_kept name_of code handler start_up
                sample_keeps_identifiers tested) as Hi.
  split; (split; [reflexivity|]).
  - split; [exact Hi|].
    exact (Hsame testContinuation from_test (initial 0) tested _ from_other
             eq_refl Hne Hi).
  - split; [apply registry_kept_refl|]. split; [reflexivity|].
    exact (Hother stepA stepB from_bot (initial 0) stepped stepped from_bot
             eq_refl (registry_kept_refl stepped) eq_refl eq_refl).
Defined.

(** For C5: [stepA] is registered in [stepped], [testContinuation] is not. *)
Lemma continueWith_spec_sample :
  fn_continuationId stepped !! testContinuation = None /\
  continueWith name_of testContinuation [] stepped =
    Threw (UnregisteredUnit "testContinuation") /\
  fn_continuationId stepped !! stepA = Some "bot.js#step" /\
  continueWith name_of stepA [VNum 1] stepped = Returned stepping.
Proof.
  destruct (continueWith_spec name_of testContinuation [] stepped) as ([_ Hthrows] & _ & _).
  destruct (continueWith_spec name_of stepA [VNum 1] stepped) as (_ & _ & Hreturns).
  assert ("bot.js#step" ≠ "") as Hne by done.
  split; [reflexivity|]. split; [exact (Hthrows (or_introl eq_refl))|].
  split; [reflexivity|]. exact (Hreturns "bot.js#step" eq_refl Hne).
Defined.

(** For C6: [stepA], registered from [bot.js], after the calls of [later]. *)
Lemma canContinueWith_registers_sample :
  canContinueWith name_of stepA from_bot (initial 0) = (Returned stepA, stepped) /\
  fn_continuationId stepped !! stepA = Some "bot.js#step" /\
  _continuations (exec_all name_of code handler later stepped) !! "bot.js#step" =
    Some stepA /\
  fn_continuationId (exec_all name_of code handler later stepped) !! stepA =
    Some "bot.js#step".
Proof.
  destruct (canContinueWith_registers name_of code handler stepA from_bot (initial 0)
              stepA stepped eq_refl sample_keeps_registry sample_keeps_identifiers)
    as (_ & Hid & Htable & Hkept).
  assert ("bot.js#step" ≠ "") as Hne by done.
  split; [reflexivity|]. split; [exact Hid|].
  split; [exact (Htable later) | exact (Hkept Hne later)].
Defined.

(** For C7: the entry of [stepA] through the calls of [later]. *)
Lemma registry_append_only_sample :
  user_code_respects code handler registry_kept /\
  _continuations stepped !! "bot.js#step" = Some stepA /\
  _continuations (exec_all name_of code handler later stepped) !! "bot.js#step" =
    Some stepA.
Proof.
  split; [exact sample_keeps_registry|]. split; [reflexivity|].
  exact (registry_append_only name_of code handler later stepped "bot.js#step" stepA
           sample_keeps_registry eq_refl).
Defined.

(** For C8: the continuation [continueWith(stepA, 1)] builds. *)
Lemma stored_continuation_roundtrip_sample :
  done stepping = false /\
  toJSON stepping =
    VObj [("done", VBool false); ("continuationId", VStr "bot.js#step");
          ("args", VArr [VNum 1])] /\
  exists c',
    fromJSON (toJSON stepping) = Some c' /\
    forall n context s,
      continueNow code handler n c' context s = continueNow code handler n stepping context s.
Proof.
  split; [reflexivity|]. split; [reflexivity|].
  exact (stored_continuation_roundtrip code handler stepping eq_refl).
Defined.

Lemma stepped_table i : _continuations stepped !! i ≠ Some stepB.
Proof.
  change (_continuations stepped) with (<["bot.js#step" := stepA]> (∅ : gmap string fnref)).
  intros H. apply lookup_insert_Some in H as [[_ H]|[_ H]]; [done|].
  by rewrite lookup_empty in H.
Qed.

(** For C9: [stepB] after [stepA], both called [step] in [bot.js]. *)
Lemma collision_attaches_identifier_sample :
  _continuations stepped !! "bot.js#step" = Some stepA /\
  fn_continuationId stepped !! stepB = None /\
  "bot.js#step" ≠ "" /\
  (forall i, _continuations stepped !! i ≠ Some stepB) /\
  (canContinueWith name_of stepB from_bot stepped).1 =
    Threw (IdentifierCollision "bot.js#step") /\
  fn_continuationId collided !! stepB = Some "bot.js#step" /\
  _continuations collided = _continuations stepped /\
  continueWith name_of stepB [VNum 1] collided = Returned stepping /\
  continueNow code handler 0 stepping 5 collided =
    mkRun (Some (Returned dontContinue)) (add_world 10 collided)
          [CalledFunction stepA 5 [VNum 1]].
Proof.
  assert ("bot.js#step" ≠ "") as Hne by done.
  destruct (collision_attaches_identifier name_of code handler stepA stepB from_bot
              stepped "bot.js#step" [VNum 1] 5 0 eq_refl eq_refl Hne eq_refl stepped_table)
    as (Hthrows & Hid & Htable & _ & Hwith & Hnow).
  split; [reflexivity|]. split; [reflexivity|]. split; [exact Hne|].
  split; [exact stepped_table|]. split; [exact Hthrows|].
  split; [exact Hid|]. split; [exact Htable|]. split; [exact Hwith | exact Hnow].
Defined.

(** * Where the claims as first stated fail

    All on functions without a name, registered under [entry_policy], which
    gives a nameless function of [index.js] the empty string as identifier. *)

(** Against C1 as stated: [canContinueWith(anonymousA)] returns, yet
    [continueWith(anonymousA)] throws, so there is no continuation to
    execute and [anonymousA] is not called. *)
Lemma nameless_cannot_continue :
  canContinueWith name_of anonymousA from_index configured =
    (Returned anonymousA, nameless) /\
  continueWith name_of anonymousA [] nameless = Threw (UnregisteredUnit "").
Proof. split; reflexivity. Qed.

(** Against C2 as stated: the continuation is not done, its identifier is
    present and is not in the table, the configuration is the default one,
    yet [continueNow] returns [{done: true}], and [functionNotFound] is not
    called. *)
Lemma empty_identifier_not_reported :
  _continuations (initial (W := nat) 0) !! "" = None /\
  _config (initial (W := nat) 0) = default_config /\
  continueNow code handler 0 (mkContinuation false (Some "") None) 5 (initial 0) =
    mkRun (Some (Returned dontContinue)) (initial 0) [].
Proof. repeat split. Qed.

(** Against C4 as stated: the second [canContinueWith(anonymousA)] returns;
    [anonymousA] is then in the table twice. *)
Lemma nameless_registered_twice :
  canContinueWith name_of anonymousA from_index configured =
    (Returned anonymousA, nameless) /\
  canContinueWith name_of anonymousA from_other nameless =
    (Returned anonymousA, nameless_again) /\
  _continuations nameless_again !! "" = Some anonymousA /\
  _continuations nameless_again !! "other.js#" = Some anonymousA.
Proof. repeat split. Qed.

(** Against C5 as stated: [anonymousA] was registered and carries an
    identifier, yet [continueWith(anonymousA)] throws. *)
Lemma nameless_carries_identifier :
  canContinueWith name_of anonymousA from_index configured =
    (Returned anonymousA, nameless) /\
  fn_continuationId nameless !! anonymousA = Some "" /\
  continueWith name_of anonymousA [VNum 1] nameless = Threw (UnregisteredUnit "") /\
  ~ (continueWith name_of anonymousA [VNum 1] nameless = Threw (UnregisteredUnit "") <->
     fn_continuationId nameless !! anonymousA = None).
Proof. repeat split. intros [H _]. by specialize (H eq_refl). Qed.

(** Against C6 as stated: the identifier attached to [anonymousA] by a
    registration that returned is replaced by a later call of the library. *)
Lemma nameless_identifier_replaced :
  canContinueWith name_of anonymousA from_index configured =
    (Returned anonymousA, nameless) /\
  fn_continuationId nameless !! anonymousA = Some "" /\
  exec_all name_of code handler [CanContinueWith anonymousA from_other] nameless =
    nameless_again /\
  fn_continuationId nameless_again !! anonymousA = Some "other.js#".
Proof. repeat split. Qed.

(** Against C9 as stated: [canContinueWith(anonymousB)] throws because its
    identifier is the one of [anonymousA], the identifier is attached to
    [anonymousB], yet a later [continueWith(anonymousB)] throws. *)
Lemma nameless_collision_cannot_continue :
  _continuations nameless !! "" = Some anonymousA /\
  canContinueWith name_of anonymousB from_index nameless =
    (Threw (IdentifierCollision ""), nameless_collided) /\
  fn_continuationId nameless_collided !! anonymousB = Some "" /\
  continueWith name_of anonymousB [] nameless_collided = Threw (UnregisteredUnit "").
Proof. repeat split. Qed.

(** * More of the library *)

Section MoreFacts.

Context {W Ctx : Type}.
Variable fn_name : fnref -> string.
Variable fn_code :
  fnref -> Ctx -> list value -> State W -> completion Continuation * State W.
Variable handler_code :
  handlerref -> Continuation -> Ctx -> State W -> completion Continuation * State W.

Implicit Types (s : State W) (c : Continuation) (context : Ctx)
  (fn : fnref) (id : string) (a : list value) (n : nat).

(** ** The caller's file, in full *)

Lemma searchCaller_find (currentfile : string) (stack : list (option string)) :
  forall callerfile,
    searchCaller currentfile callerfile stack =
      match find (fun frame => bool_decide (fileName frame ≠ currentfile)) stack with
      | Some frame => fileName frame
      | None => from_option fileName callerfile (last stack)
      end.
Proof.
  induction stack as [|frame rest IH]; intros callerfile; simpl; [done|].
  destruct (decide (currentfile = fileName frame)) as [Heq|Hne].
  - rewrite bool_decide_false by (intros H; by apply H).
    rewrite IH. destruct (find _ rest); [done|]. destruct rest as [|frame' rest]; [done|].
    rewrite last_cons_cons. destruct (last (frame' :: rest)) eqn:E; [done|].
    by apply last_None in E.
  - by rewrite bool_decide_true by congruence.
Qed.

(** X1: the file [canContinueWith] takes as the caller's is the file of
    the first frame, after its own, that lies in another file than its own
    frame; when there is none, it is the file of the last frame, and the
    empty string when the stack has no frame but its own, or none at all.  A
    frame without file name counts as one of the file with the empty name. *)
Theorem callerFile_first_foreign_frame :
  callerFile [] = "" /\
  forall (own : option string) (rest : list (option string)),
    callerFile (own :: rest) =
      match find (fun frame => bool_decide (fileName frame ≠ fileName own)) rest with
      | Some frame => fileName frame
      | None => from_option fileName "" (last rest)
      end.
Proof. split; [done|]. intros own rest. simpl. apply searchCaller_find. Qed.

(** ** The module's own identifier policy *)

Lemma separator_splits (f1 f2 n1 n2 : string) :
  occurs "#"%char f1 = false -> occurs "#"%char f2 = false ->
  f1 ++ "#" ++ n1 = f2 ++ "#" ++ n2 -> f1 = f2 /\ n1 = n2.
Proof.
  revert f2. induction f1 as [|c1 f1 IH]; intros [|c2 f2] H1 H2 Heq.
  - change (String "#" n1 = String "#" n2) in Heq. by injection Heq as ->.
  - change (String "#" n1 = String c2 (f2 ++ "#" ++ n2)) in Heq.
    injection Heq as <- _. simpl in H2. first [done | by rewrite decide_True in H2].
  - change (String c1 (f1 ++ "#" ++ n1) = String "#" n2) in Heq.
    injection Heq as -> _. simpl in H1. first [done | by rewrite decide_True in H1].
  - change (String c1 (f1 ++ "#" ++ n1) = String c2 (f2 ++ "#" ++ n2)) in Heq.
    injection Heq as -> Heq. simpl in H1, H2.
    destruct (decide (c2 = "#"%char)); [done|].
    destruct (IH f2 H1 H2 Heq) as [-> ->]. done.
Qed.

(** X2: for files whose names have no [#], the module's own policy gives
    two registrations the same identifier only when they agree on both the
    file and the function name; with a [#] in a file name this fails. *)
Theorem default_getContinuationId_injective :
  (forall f1 f2 n1 n2 : string,
     occurs "#"%char f1 = false -> occurs "#"%char f2 = false ->
     default_getContinuationId f1 n1 = default_getContinuationId f2 n2 ->
     f1 = f2 /\ n1 = n2) /\
  default_getContinuationId "a#b" "c" = default_getContinuationId "a" "b#c".
Proof. split; [apply separator_splits | done]. Qed.

(** X3: while the module's own identifier policy is in place, a function
    whose registration returned can be continued with, under the identifier
    [file#name], and registering it again throws the [DuplicateRegistration]
    error and changes nothing. *)
Theorem default_policy_registration fn stack s s1 a stack' :
  getContinuationId (_config s) = default_getContinuationId ->
  canContinueWith fn_name fn stack s = (Returned fn, s1) ->
  continueWith fn_name fn a s1 =
    Returned (mkContinuation false (Some (callerFile stack ++ "#" ++ fn_name fn)) (Some a)) /\
  canContinueWith fn_name fn stack' s1 =
    (Threw (DuplicateRegistration (fn_name fn) (callerFile stack')), s1).
Proof.
  intros Hdefault Hreg.
  apply canContinueWith_returned in Hreg as (_ & _ & _ & ->).
  rewrite Hdefault.
  pose proof (default_config_never_empty (callerFile stack) (fn_name fn)) as Hne.
  simpl in Hne. split.
  - apply continueWith_truthy; [apply lookup_insert_eq | done].
  - apply canContinueWith_duplicate. simpl. rewrite lookup_insert_eq. simpl.
    by apply truthy_true.
Qed.

(** ** Configuring *)


(** ** What a registration does, and what it leaves alone *)

(** X5: [canContinueWith(fn)], returning or throwing, leaves the
    configuration and the application's state as they were, writes the
    identifier of no function but [fn], and changes the table under no
    identifier but the one it computed for [fn]. *)
Theorem canContinueWith_frame fn stack s :
  _config (canContinueWith fn_name fn stack s).2 = _config s /\
  world (canContinueWith fn_name fn stack s).2 = world s /\
  (forall g, g ≠ fn ->
     fn_continuationId (canContinueWith fn_name fn stack s).2 !! g =
     fn_continuationId s !! g) /\
  (forall id, id ≠ getContinuationId (_config s) (callerFile stack) (fn_name fn) ->
     _continuations (canContinueWith fn_name fn stack s).2 !! id =
     _continuations s !! id).
Proof.
  unfold canContinueWith.
  destruct (truthy_opt (fn_continuationId s !! fn)); [done|]. simpl.
  destruct (_continuations s !! getContinuationId _ _ _); simpl;
    (split; [done|]; split; [done|]; split;
     [intros g Hg; by rewrite lookup_insert_ne | intros id Hid]); [done|].
  by rewrite lookup_insert_ne.
Qed.

(** X6: [canContinueWith(fn)] returns exactly when [fn] carries no
    identifier, or the empty one, and the identifier computed is not in the
    table; the table then has one entry more.  Otherwise it throws: the
    [DuplicateRegistration] error exactly when [fn] carries a non-empty
    identifier, the [IdentifierCollision] error exactly when it does not and
    the identifier computed is in the table; the table is then as it was. *)
Theorem canContinueWith_outcomes fn stack s :
  let id := getContinuationId (_config s) (callerFile stack) (fn_name fn) in
  let r := canContinueWith fn_name fn stack s in
  (r.1 = Returned fn <->
     truthy_opt (fn_continuationId s !! fn) = false /\ _continuations s !! id = None) /\
  (r.1 = Threw (DuplicateRegistration (fn_name fn) (callerFile stack)) <->
     truthy_opt (fn_continuationId s !! fn) = true) /\
  (r.1 = Threw (IdentifierCollision id) <->
     truthy_opt (fn_continuationId s !! fn) = false /\ is_Some (_continuations s !! id)) /\
  (r.1 = Returned fn -> size (_continuations r.2) = S (size (_continuations s))) /\
  (r.1 ≠ Returned fn -> _continuations r.2 = _continuations s).
Proof.
  intros id r. unfold r, canContinueWith. fold id.
  destruct (truthy_opt (fn_continuationId s !! fn)); simpl.
  - split; [intuition (eauto; congruence)|]. split; [intuition (eauto; congruence)|]. split; [intuition (eauto; congruence)|]. done.
  - destruct (_continuations s !! id) as [other|] eqn:Hin; simpl.
    + split; [intuition (eauto; congruence)|]. split; [intuition (eauto; congruence)|]. split; [intuition (eauto; congruence)|]. done.
    + split; [intuition (eauto; congruence)|]. split; [intuition (eauto; congruence)|].
      split; [split; [done | by intros [_ [? ?]]]|].
      split; [intros _; by apply map_size_insert_None | done].
Qed.

(** ** The table and the identifiers agree *)

Lemma canContinueWith_consistent fn stack s :
  consistent s -> consistent (canContinueWith fn_name fn stack s).2.
Proof.
  intros Hs. unfold canContinueWith.
  destruct (truthy_opt (fn_continuationId s !! fn)) eqn:Hfalsy; [done|]. simpl.
  set (id := getContinuationId (_config s) (callerFile stack) (fn_name fn)).
  assert (forall id' g, _continuations s !! id' = Some g ->
            is_Some (<[fn := id]> (fn_continuationId s) !! g) /\
            (id' ≠ "" -> <[fn := id]> (fn_continuationId s) !! g = Some id')) as Hold.
  { intros id' g Hin. destruct (Hs id' g Hin) as [Hsome Hsame].
    destruct (decide (g = fn)) as [->|Hg].
    - rewrite lookup_insert_eq. split; [eauto|]. intros Hne.
      rewrite (Hsame Hne) in Hfalsy. simpl in Hfalsy.
      by apply truthy_false in Hfalsy.
    - by rewrite lookup_insert_ne. }
  destruct (_continuations s !! id) eqn:Hid; simpl; intros id' g Hin; simpl in *.
  - by apply Hold.
  - destruct (decide (id' = id)) as [->|Hne].
    + rewrite lookup_insert_eq in Hin. injection Hin as <-.
      rewrite lookup_insert_eq. eauto.
    + rewrite lookup_insert_ne in Hin by done. by apply Hold.
Qed.

Lemma exec_all_consistent ops :
  user_code_respects fn_code handler_code (fun s s' => consistent s -> consistent s') ->
  forall s, consistent s -> consistent (exec_all fn_name fn_code handler_code ops s).
Proof.
  intros Huser. induction ops as [|op ops IH]; intros s Hs; simpl; [done|].
  apply IH. destruct op; simpl; try done.
  - by apply canContinueWith_consistent.
  - by apply (continueNow_respects fn_code handler_code
                (fun s s' => consistent s -> consistent s')); auto.
Qed.

(** X7: starting from a state where the table and the identifiers agree
    (the state of the freshly loaded module is one), after any calls of the
    library every function that is in the table under a non-empty identifier
    can be continued with, and the continuation carries that identifier: what
    [continueNow] can reach, [continueWith] can name. *)
Theorem table_functions_continue ops s id fn a :
  user_code_respects fn_code handler_code (fun s s' => consistent s -> consistent s') ->
  consistent s ->
  _continuations (exec_all fn_name fn_code handler_code ops s) !! id = Some fn ->
  id ≠ "" ->
  continueWith fn_name fn a (exec_all fn_name fn_code handler_code ops s) =
    Returned (mkContinuation false (Some id) (Some a)).
Proof.
  intros Huser Hs Hin Hne.
  destruct (exec_all_consistent ops Huser s Hs id fn Hin) as [_ Hsame].
  apply continueWith_truthy; auto.
Qed.

(** X8: under the same conditions, no function is in the table under two
    different non-empty identifiers. *)
Theorem one_identifier_per_function ops s id1 id2 fn :
  user_code_respects fn_code handler_code (fun s s' => consistent s -> consistent s') ->
  consistent s ->
  _continuations (exec_all fn_name fn_code handler_code ops s) !! id1 = Some fn ->
  _continuations (exec_all fn_name fn_code handler_code ops s) !! id2 = Some fn ->
  id1 ≠ "" -> id2 ≠ "" -> id1 = id2.
Proof.
  intros Huser Hs H1 H2 Hne1 Hne2.
  destruct (exec_all_consistent ops Huser s Hs id1 fn H1) as [_ Hsame1].
  destruct (exec_all_consistent ops Huser s Hs id2 fn H2) as [_ Hsame2].
  specialize (Hsame1 Hne1). specialize (Hsame2 Hne2). congruence.
Qed.

(** ** The calls of one execution *)

(** X9: one [continueNow] calls [functionNotFound] for each redirect it
    follows, and then at most one function of the table, last; every call
    gets the context [continueNow] was given. *)
Theorem continueNow_calls_shape n :
  forall c context s,
    exists (cs : list Continuation) (tail : list (event Ctx)),
      calls (continueNow fn_code handler_code n c context s) =
        (redirected context cs ++ tail)%list /\
      length cs <= S n /\
      (tail = [] \/ exists fn a, tail = [CalledFunction fn context a]).
Proof.
  induction n as [|n IH]; intros c context s; simpl.
  - destruct (done c); [exists [], []; simpl; auto with lia|].
    destruct (continuationId c) as [id|]; [|exists [], []; simpl; auto with lia].
    destruct (truthy id); [|exists [], []; simpl; auto with lia].
    destruct (_continuations s !! id) as [cfn|].
    + destruct (fn_code _ _ _ _). eexists [], _. simpl.
      split; [reflexivity|]. split; [lia|]. right. eauto.
    + destruct (call_functionNotFound _ c context s) as [[redirect|e] s'];
        [destruct (done redirect)|]; exists [c], []; simpl; auto with lia.
  - destruct (done c); [exists [], []; simpl; auto with lia|].
    destruct (continuationId c) as [id|]; [|exists [], []; simpl; auto with lia].
    destruct (truthy id); [|exists [], []; simpl; auto with lia].
    destruct (_continuations s !! id) as [cfn|].
    + destruct (fn_code _ _ _ _). eexists [], _. simpl.
      split; [reflexivity|]. split; [lia|]. right. eauto.
    + destruct (call_functionNotFound _ c context s) as [[redirect|e] s'];
        [destruct (done redirect)|];
        try solve [exists [c], []; simpl; auto with lia].
      destruct (IH redirect context s') as (cs & tail & Hcalls & Hlen & Htail).
      exists (c :: cs), tail. simpl. rewrite Hcalls. auto with lia.
Qed.

(** X10: [continueNow] puts no bound on redirects.  When the configured
    [functionNotFound] hands back the continuation it was given, one whose
    non-empty identifier is not in the table, and leaves the state alone,
    [continueNow] calls it again and again and never returns. *)
Theorem continueNow_redirect_loop n c id h context s :
  done c = false -> continuationId c = Some id -> id ≠ "" ->
  _continuations s !! id = None ->
  functionNotFound (_config s) = CustomFunctionNotFound h ->
  handler_code h c context s = (Returned c, s) ->
  continueNow fn_code handler_code n c context s =
    mkRun None s (replicate (S n) (CalledFunctionNotFound c context)).
Proof.
  intros Hd Hid Hne Hin Hcustom Hsame.
  induction n as [|n IH];
    rewrite (continueNow_lookup fn_code handler_code _ c id) by done;
    rewrite Hin; unfold call_functionNotFound; rewrite Hcustom, Hsame; simpl;
    rewrite Hd; [done|].
  by rewrite IH.
Qed.

(** X11: [continueNow] changes the state through user code only: a
    property of the state that every continuation function and every
    [functionNotFound] keeps holds after [continueNow] when it held before. *)
Theorem continueNow_keeps_invariants (P : State W -> Prop) n c context s :
  (forall fn context a s, P s -> P (fn_code fn context a s).2) ->
  (forall h c context s, P s -> P (handler_code h c context s).2) ->
  P s -> P (final (continueNow fn_code handler_code n c context s)).
Proof.
  intros Hfn Hh.
  by apply (continueNow_respects fn_code handler_code (fun s s' => P s -> P s')); auto.
Qed.

(** X12: while the module's own [functionNotFound] is in place,
    [continueNow] follows no redirect: it returns or throws after at most one
    call, whatever the continuation. *)
Theorem continueNow_default_policy n c context s :
  functionNotFound (_config s) = DefaultFunctionNotFound ->
  continueNow fn_code handler_code n c context s =
    continueNow fn_code handler_code 0 c context s /\
  is_Some (outcome (continueNow fn_code handler_code 0 c context s)) /\
  length (calls (continueNow fn_code handler_code 0 c context s)) <= 1.
Proof.
  intros Hdefault. destruct n; simpl;
    (destruct (done c); [simpl; eauto with lia|];
     destruct (continuationId c) as [id|]; [|simpl; eauto with lia];
     destruct (truthy id); [|simpl; eauto with lia];
     destruct (_continuations s !! id);
     [destruct (fn_code _ _ _ _); simpl; eauto with lia|];
     unfold call_functionNotFound; rewrite Hdefault; simpl; eauto with lia).
Qed.

End MoreFacts.

(** * The README's test *)

Section IterationFacts.

Import Iteration.

(** One execution: the count goes up by one, a line is written, and the
    chain goes on while the count is below [maxIterations]. *)
Lemma testContinuation_step (redirects : nat) (id : string) (s : State Test) :
  id ≠ "" ->
  fn_continuationId s !! testContinuation = Some id ->
  _continuations s !! id = Some testContinuation ->
  (iterations (world s) < exact_limit)%N ->
  continueNow code handler redirects (mkContinuation false (Some id) (Some [])) tt s =
    mkRun
      (Some (Returned
         (if decide (iterations (world s) + 1 < maxIterations (world s))%N
          then mkContinuation false (Some id) (Some [])
          else mkContinuation true None None)))
      (set_world
         (mkTest (iterations (world s) + 1) (maxIterations (world s))
                 (console (world s) ++
                  [line (iterations (world s) + 1) (maxIterations (world s))]))
         s)
      [CalledFunction testContinuation tt []].
Proof.
  intros Hne Hid Hin Hexact.
  rewrite (continueNow_found code handler redirects _ id testContinuation) by done.
  simpl. unfold increment.
  destruct (decide (iterations (world s) < exact_limit)%N) as [_|Hstuck]; [|done].
  case_decide; simpl; [|done].
  by rewrite (continueWith_truthy name_of testContinuation [] _ id).
Qed.

(** Arithmetic in which the limit is any number. *)
Ltac limit_lia :=
  repeat match goal with H : context [exact_limit] |- _ => revert H end;
  generalize exact_limit; intros; lia.

Lemma lines_from (i m : N) (k : nat) :
  map (fun j => line (i + N.of_nat j) m) (seq 2 k) =
  map (fun j => line (i + 1 + N.of_nat j) m) (seq 1 k).
Proof.
  rewrite <- (fmap_S_seq 1 k), <- list_fmap_compose.
  apply list_fmap_ext. intros _ j _. simpl. f_equal. lia.
Qed.

Lemma whileNotDone_test (redirects : nat) (id : string) (turns : nat) :
  id ≠ "" ->
  forall s : State Test,
    fn_continuationId s !! testContinuation = Some id ->
    _continuations s !! id = Some testContinuation ->
    let i := iterations (world s) in
    let m := maxIterations (world s) in
    let k := N.to_nat (N.max 1 (m - i)) in
    (i < exact_limit)%N -> (m <= exact_limit)%N ->
    k <= turns ->
    whileNotDone code handler turns redirects
        (mkContinuation false (Some id) (Some [])) tt s =
      mkRun (Some (Returned (mkContinuation true None None)))
        (set_world
           (mkTest (i + N.max 1 (m - i))%N m
                   (console (world s) ++
                    map (fun j => line (i + N.of_nat j) m) (seq 1 k)))
           s)
        (replicate k (CalledFunction testContinuation tt [])).
Proof.
  intros Hne. induction turns as [|turns IH]; intros s Hid Hin i m k Hi Hm Hk;
    unfold k, m, i in *; clear k m i; [lia|].
  simpl. rewrite (testContinuation_step redirects id s Hne Hid Hin Hi). simpl.
  case_decide as Hlt; simpl.
  - assert (N.max 1 (maxIterations (world s) - iterations (world s)) =
            maxIterations (world s) - iterations (world s))%N as Hmax
      by (apply N.max_r; lia).
    assert (N.max 1 (maxIterations (world s) - (iterations (world s) + 1)) =
            maxIterations (world s) - (iterations (world s) + 1))%N as Hmax'
      by (apply N.max_r; lia).
    rewrite Hmax in *.
    rewrite IH; simpl; rewrite ?Hmax'; [|done|done|limit_lia|done|lia].
    replace (N.to_nat (maxIterations (world s) - iterations (world s)))
      with (S (N.to_nat (maxIterations (world s) - (iterations (world s) + 1))))
      by lia.
    simpl. rewrite <- app_assoc. simpl. rewrite lines_from.
    unfold set_world. simpl.
    replace (iterations (world s) + 1 +
             (maxIterations (world s) - (iterations (world s) + 1)))%N
      with (iterations (world s) +
            (maxIterations (world s) - iterations (world s)))%N by lia.
    done.
  - assert (N.max 1 (maxIterations (world s) - iterations (world s)) = 1)%N as ->
      by (apply N.max_l; lia).
    simpl. by destruct turns.
Qed.

(** X13: the README's test, for any [maxIterations] from 0 to 2^53: the
    loop ends, on [{done: true}], after calling [testContinuation]
    [maxIterations] times (once when [maxIterations] is 0), each call with
    the context alone; the count then is the number of calls, and the console
    shows one line per call, numbered from 1. *)
Theorem test_iterates (stack : list (option string)) (maxIterations : N)
    (turns : nat) :
  (maxIterations <= exact_limit)%N ->
  N.to_nat (N.max 1 maxIterations) <= turns ->
  outcome (main stack maxIterations turns) =
    Some (Returned (mkContinuation true None None)) /\
  calls (main stack maxIterations turns) =
    replicate (N.to_nat (N.max 1 maxIterations))
              (CalledFunction testContinuation tt []) /\
  world (final (main stack maxIterations turns)) =
    mkTest (N.max 1 maxIterations) maxIterations
           (map (fun j => line (N.of_nat j) maxIterations)
                (seq 1 (N.to_nat (N.max 1 maxIterations)))).
Proof.
  intros Hexact Hturns. unfold main.
  set (id := default_getContinuationId (callerFile stack) "testContinuation").
  assert (id ≠ "") as Hne.
  { apply truthy_true, default_getContinuationId_truthy. }
  rewrite (canContinueWith_fresh name_of testContinuation stack _ id)
    by (done || apply lookup_empty).
  cbn [fst snd].
  set (s := mkState _ _ _ _).
  assert (fn_continuationId s !! testContinuation = Some id) as Hid
    by apply lookup_insert_eq.
  assert (_continuations s !! id = Some testContinuation) as Hin
    by apply lookup_insert_eq.
  rewrite (continueWith_truthy name_of testContinuation [] s id Hid Hne).
  rewrite (whileNotDone_test 0 id turns Hne s Hid Hin);
    [|done|done|cbn; by rewrite N.sub_0_r].
  cbn. rewrite N.sub_0_r. done.
Qed.

End IterationFacts.

(** * The echo bot *)

Section EchoBotFacts.

Import EchoBot.

Implicit Types (s : State Bot) (act : Activity) (start prompt : string).

(** ** The two continuation functions *)

Lemma ready_set_world start prompt s w :
  ready start prompt s -> ready start prompt (set_world w s).
Proof. done. Qed.

Lemma startContinuation_asks redirects start prompt s act o :
  ready start prompt s ->
  truthy_opt (name_in (mkContext act o) s) = false ->
  continueNow code handler redirects (continuing start) (mkContext act o) s =
    mkRun (Some (Returned (continuing prompt)))
          (sendActivity (conversation act) "Hi! What's your name?" s)
          [CalledFunction startContinuation (mkContext act o) []].
Proof.
  intros (Hs & Hp & Hids & Hidp & Hins & Hinp) Hfalsy.
  rewrite (continueNow_found code handler redirects _ start startContinuation) by done.
  simpl. rewrite Hfalsy. simpl.
  by rewrite (continueWith_truthy name_of namePromptContinuation [] _ prompt).
Qed.

Lemma startContinuation_echoes redirects start prompt s act o name :
  ready start prompt s ->
  name_in (mkContext act o) s = Some name -> name ≠ "" ->
  continueNow code handler redirects (continuing start) (mkContext act o) s =
    mkRun (Some (Returned dontContinue))
          (sendActivity (conversation act) (name ++ ", you said: " ++ text act) s)
          [CalledFunction startContinuation (mkContext act o) []].
Proof.
  intros (Hs & Hp & Hids & Hidp & Hins & Hinp) Hname Hne.
  rewrite (continueNow_found code handler redirects _ start startContinuation) by done.
  simpl. rewrite Hname. simpl. apply truthy_true in Hne. by rewrite Hne.
Qed.

Lemma namePromptContinuation_greets redirects start prompt s act o :
  ready start prompt s ->
  continueNow code handler redirects (continuing prompt) (mkContext act o) s =
    mkRun (Some (Returned dontContinue))
          (sendActivity (conversation act)
             ("Nice to meet you " ++ text act ++
              "! You can say stuff to me and I'll echo it back.")
             (set_name (mkContext act o) (text act) s))
          [CalledFunction namePromptContinuation (mkContext act o) []].
Proof.
  intros (Hs & Hp & Hids & Hidp & Hins & Hinp).
  rewrite (continueNow_found code handler redirects _ prompt namePromptContinuation)
    by done.
  simpl. unfold name_in at 1. simpl. by rewrite lookup_insert_eq.
Qed.

(** ** One turn, case by case *)

Lemma execute_and_save_asks redirects start prompt s act o :
  ready start prompt s ->
  truthy_opt (name_in (mkContext act o) s) = false ->
  execute_and_save redirects act (continuing start) o s =
    (Some (Returned tt),
     saveConversationState (conversation act) (continuing prompt, o)
       (sendActivity (conversation act) "Hi! What's your name?" s)).
Proof.
  intros Hready Hfalsy. unfold execute_and_save.
  by rewrite (startContinuation_asks redirects start prompt s act o).
Qed.

Lemma execute_and_save_echoes redirects start prompt s act o name :
  ready start prompt s ->
  name_in (mkContext act o) s = Some name -> name ≠ "" ->
  execute_and_save redirects act (continuing start) o s =
    (Some (Returned tt),
     saveConversationState (conversation act) (continuing start, o)
       (sendActivity (conversation act) (name ++ ", you said: " ++ text act) s)).
Proof.
  intros Hready Hname Hne. unfold execute_and_save.
  rewrite (startContinuation_echoes redirects start prompt s act o name) by done.
  simpl. destruct Hready as (Hs & _ & Hids & _).
  by rewrite (continueWith_truthy name_of startContinuation [] _ start).
Qed.

Lemma execute_and_save_greets redirects start prompt s act o :
  ready start prompt s ->
  execute_and_save redirects act (continuing prompt) o s =
    (Some (Returned tt),
     saveConversationState (conversation act) (continuing start, o)
       (sendActivity (conversation act)
          ("Nice to meet you " ++ text act ++
           "! You can say stuff to me and I'll echo it back.")
          (set_name (mkContext act o) (text act) s))).
Proof.
  intros Hready. unfold execute_and_save.
  rewrite (namePromptContinuation_greets redirects start prompt s act o) by done.
  simpl. destruct Hready as (Hs & _ & Hids & _).
  by rewrite (continueWith_truthy name_of startContinuation [] _ start).
Qed.

Lemma onMessage_new redirects start prompt s act :
  ready start prompt s ->
  storage (world s) !! conversation act = None ->
  onMessage redirects act s =
    (Some (Returned tt),
     saveConversationState (conversation act) (continuing prompt, (new_object s).1)
       (sendActivity (conversation act) "Hi! What's your name?" (new_object s).2)).
Proof.
  intros Hready Hnew. unfold onMessage, loadConversationState. rewrite Hnew.
  destruct Hready as (Hs & Hp & Hids & Hidp & Hins & Hinp).
  rewrite (continueWith_truthy name_of startContinuation [] s start) by done.
  change (mkContinuation false (Some start) (Some [])) with (continuing start).
  destruct (new_object s) as [o s'] eqn:Hobject. simpl.
  apply (execute_and_save_asks redirects start prompt).
  - injection Hobject as _ <-. done.
  - injection Hobject as <- <-. unfold name_in. simpl. by rewrite lookup_insert_eq.
Qed.

Lemma onMessage_asks redirects start prompt s act o :
  ready start prompt s ->
  storage (world s) !! conversation act = Some (continuing start, o) ->
  truthy_opt (name_in (mkContext act o) s) = false ->
  onMessage redirects act s =
    (Some (Returned tt),
     saveConversationState (conversation act) (continuing prompt, o)
       (sendActivity (conversation act) "Hi! What's your name?" s)).
Proof.
  intros Hready Hstored Hfalsy. unfold onMessage, loadConversationState.
  rewrite Hstored. by apply (execute_and_save_asks redirects start prompt).
Qed.

Lemma onMessage_echoes redirects start prompt s act o name :
  ready start prompt s ->
  storage (world s) !! conversation act = Some (continuing start, o) ->
  name_in (mkContext act o) s = Some name -> name ≠ "" ->
  onMessage redirects act s =
    (Some (Returned tt),
     saveConversationState (conversation act) (continuing start, o)
       (sendActivity (conversation act) (name ++ ", you said: " ++ text act) s)).
Proof.
  intros Hready Hstored Hname Hne. unfold onMessage, loadConversationState.
  rewrite Hstored. by apply (execute_and_save_echoes redirects start prompt).
Qed.

Lemma onMessage_greets redirects start prompt s act o :
  ready start prompt s ->
  storage (world s) !! conversation act = Some (continuing prompt, o) ->
  onMessage redirects act s =
    (Some (Returned tt),
     saveConversationState (conversation act) (continuing start, o)
       (sendActivity (conversation act)
          ("Nice to meet you " ++ text act ++
           "! You can say stuff to me and I'll echo it back.")
          (set_name (mkContext act o) (text act) s))).
Proof.
  intros Hready Hstored. unfold onMessage, loadConversationState.
  rewrite Hstored. by apply (execute_and_save_greets redirects start prompt).
Qed.

(** ** What the store holds, turn after turn *)

Lemma stored_update start prompt s s' id c o :
  stored start prompt s ->
  c = continuing start \/ c = continuing prompt ->
  storage (world s') = <[id := (c, o)]> (storage (world s)) ->
  (forall o', is_Some (objects (world s) !! o') -> is_Some (objects (world s') !! o')) ->
  is_Some (objects (world s') !! o) ->
  (forall id' c', storage (world s) !! id' = Some (c', o) -> id' = id) ->
  stored start prompt s'.
Proof.
  intros Hstored Hc Hstorage Hobjects Ho Hown id1 c1 o1. rewrite Hstorage.
  destruct (decide (id1 = id)) as [->|Hother].
  - rewrite lookup_insert_eq. intros [= <- <-]. split; [done|]. split; [done|].
    intros id2 c2. destruct (decide (id2 = id)) as [->|Hne]; [done|].
    rewrite lookup_insert_ne by done. apply Hown.
  - rewrite lookup_insert_ne by done. intros Hin.
    destruct (Hstored id1 c1 o1 Hin) as (Hc1 & Ho1 & Hown1).
    split; [done|]. split; [by apply Hobjects|].
    intros id2 c2. destruct (decide (id2 = id)) as [->|Hne].
    + rewrite lookup_insert_eq. intros [= <- <-]. symmetry. by apply (Hown id1 c1).
    + rewrite lookup_insert_ne by done. apply Hown1.
Qed.

(** A turn returns, and leaves the two functions registered and the store
    in order. *)
Lemma onMessage_keeps redirects start prompt s act :
  ready start prompt s -> stored start prompt s ->
  exists s',
    onMessage redirects act s = (Some (Returned tt), s') /\
    ready start prompt s' /\ stored start prompt s' /\
    (exists c o, storage (world s') !! conversation act = Some (c, o) /\
                 (c = continuing start \/ c = continuing prompt)) /\
    (exists message,
       sent (world s') = (sent (world s) ++ [(conversation act, message)])%list) /\
    (forall id, id ≠ conversation act ->
       storage (world s') !! id = storage (world s) !! id /\
       forall c o, storage (world s) !! id = Some (c, o) ->
         objects (world s') !! o = objects (world s) !! o).
Proof.
  intros Hready Hstored.
  destruct (storage (world s) !! conversation act) as [[c o]|] eqn:Hin.
  - destruct (Hstored _ _ _ Hin) as (Hc & Ho & Hown).
    assert (forall id c' o', id ≠ conversation act ->
              storage (world s) !! id = Some (c', o') -> o' ≠ o) as Hothers.
    { intros id c' o' Hid Hin' ->. by apply Hid, (Hown id c'). }
    destruct Hc as [-> | ->].
    + destruct (truthy_opt (name_in (mkContext act o) s)) eqn:Hname.
      * destruct (name_in (mkContext act o) s) as [name|] eqn:Hname'; [|done].
        simpl in Hname. apply truthy_true in Hname.
        eexists. split; [by apply (onMessage_echoes redirects start prompt s act o name)|].
        split; [done|]. split.
        { apply (stored_update start prompt s _ (conversation act)
                   (continuing start) o); simpl; auto. }
        split; [eexists _, _; split; [apply lookup_insert_eq | auto]|].
        split; [by eexists|].
        intros id Hid. simpl. by rewrite lookup_insert_ne.
      * eexists. split; [by apply (onMessage_asks redirects start prompt s act o)|].
        split; [done|]. split.
        { apply (stored_update start prompt s _ (conversation act)
                   (continuing prompt) o); simpl; auto. }
        split; [eexists _, _; split; [apply lookup_insert_eq | auto]|].
        split; [by eexists|].
        intros id Hid. simpl. by rewrite lookup_insert_ne.
    + eexists. split; [by apply (onMessage_greets redirects start prompt s act o)|].
      split; [done|]. split.
      { apply (stored_update start prompt s _ (conversation act)
                 (continuing start) o); simpl; auto.
        - intros o' Ho'. destruct (decide (o' = o)) as [->|Hne].
          + rewrite lookup_insert_eq. eauto.
          + by rewrite lookup_insert_ne.
        - rewrite lookup_insert_eq. eauto. }
      split; [eexists _, _; split; [apply lookup_insert_eq | auto]|].
      split; [by eexists|].
      intros id Hid. simpl. split; [by rewrite lookup_insert_ne|].
      intros c' o' Hin'. rewrite lookup_insert_ne; [done|].
      intros <-. by apply (Hothers id c' o).
  - pose proof (is_fresh (dom (objects (world s)))) as Hfresh.
    set (o := fresh (dom (objects (world s)))) in *.
    eexists. split; [by apply (onMessage_new redirects start prompt s act)|].
    split; [done|]. split.
    { apply (stored_update start prompt s _ (conversation act)
               (continuing prompt) o); simpl; auto.
      - intros o' Ho'. destruct (decide (o' = o)) as [->|Hne].
        + rewrite lookup_insert_eq. eauto.
        + by rewrite lookup_insert_ne.
      - rewrite lookup_insert_eq. eauto.
      - intros id' c' Hin'. destruct (Hstored _ _ _ Hin') as (_ & Ho & _).
        by apply elem_of_dom in Ho. }
    split; [eexists _, _; split; [apply lookup_insert_eq | auto]|].
    split; [by eexists|].
    intros id Hid. simpl. split; [by rewrite lookup_insert_ne|].
    intros c' o' Hin'. rewrite lookup_insert_ne; [done|].
    intros Heq. destruct (Hstored _ _ _ Hin') as (_ & Ho & _).
    apply elem_of_dom in Ho. by rewrite <- Heq in Ho.
Qed.

(** ** From the load of the module on *)

Lemma names_differ (file : string) :
  default_getContinuationId file "startContinuation" ≠
  default_getContinuationId file "namePromptContinuation".
Proof.
  unfold default_getContinuationId. induction file as [|c file IH]; [done|].
  intros H. apply IH. by injection H.
Qed.

(** Loading [continuations.js] registers the two functions, under the
    identifiers the module's own policy builds, and throws nothing. *)
Lemma register_continuations_loads (stack : list (option string)) :
  let start := default_getContinuationId (callerFile stack) "startContinuation" in
  let prompt := default_getContinuationId (callerFile stack) "namePromptContinuation" in
  register_continuations stack (initial (mkBot ∅ ∅ [])) =
    (Returned tt,
     mkState (<[prompt := namePromptContinuation]> (<[start := startContinuation]> ∅))
             default_config
             (<[namePromptContinuation := prompt]> (<[startContinuation := start]> ∅))
             (mkBot ∅ ∅ [])).
Proof.
  intros start prompt.
  assert (start ≠ prompt) as Hdiffer by apply names_differ.
  unfold register_continuations.
  rewrite (canContinueWith_fresh name_of startContinuation stack _ start)
    by (done || apply lookup_empty).
  cbn [fst snd].
  rewrite (canContinueWith_fresh name_of namePromptContinuation stack _ prompt);
    [done| |done|].
  - cbn [fn_continuationId]. by rewrite lookup_insert_ne.
  - cbn [_continuations]. by rewrite lookup_insert_ne.
Qed.

Lemma loaded_ready (stack : list (option string)) :
  ready (default_getContinuationId (callerFile stack) "startContinuation")
        (default_getContinuationId (callerFile stack) "namePromptContinuation")
        (loaded stack) /\
  stored (default_getContinuationId (callerFile stack) "startContinuation")
         (default_getContinuationId (callerFile stack) "namePromptContinuation")
         (loaded stack).
Proof.
  set (start := default_getContinuationId (callerFile stack) "startContinuation").
  set (prompt := default_getContinuationId (callerFile stack) "namePromptContinuation").
  assert (start ≠ prompt) as Hdiffer by apply names_differ.
  unfold loaded. rewrite register_continuations_loads. cbn [snd].
  fold start prompt.
  split; [|intros id c o; cbn; by rewrite lookup_empty].
  unfold ready. cbn [fn_continuationId _continuations].
  split; [apply truthy_true, default_getContinuationId_truthy|].
  split; [apply truthy_true, default_getContinuationId_truthy|].
  split; [by rewrite lookup_insert_ne, lookup_insert_eq|].
  split; [by rewrite lookup_insert_eq|].
  split; [by rewrite lookup_insert_ne, lookup_insert_eq|].
  by rewrite lookup_insert_eq.
Qed.

Lemma converse_keeps redirects start prompt (acts : list Activity) :
  forall s,
    ready start prompt s -> stored start prompt s ->
    ready start prompt (converse redirects acts s) /\
    stored start prompt (converse redirects acts s).
Proof.
  induction acts as [|act acts IH]; intros s Hready Hstored; simpl; [done|].
  destruct (onMessage_keeps redirects start prompt s act Hready Hstored)
    as (s' & -> & Hready' & Hstored' & _).
  by apply IH.
Qed.

(** X14: loading [continuations.js] throws nothing, whatever the call
    stack; and from then on, after any messages of any conversations, the
    [onMessage] handler returns on every message: it sends one message, to
    the conversation of the message, and leaves in the store, for that
    conversation, a continuation that is not done and whose identifier names
    a function of the table. *)
Theorem onMessage_leaves_resumable (stack : list (option string))
    (redirects : nat) (history : list Activity) (act : Activity) :
  (register_continuations stack (initial (mkBot ∅ ∅ []))).1 = Returned tt /\
  exists s',
    onMessage redirects act (converse redirects history (loaded stack)) =
      (Some (Returned tt), s') /\
    (exists message,
       sent (world s') =
         (sent (world (converse redirects history (loaded stack))) ++
          [(conversation act, message)])%list) /\
    (exists c o id fn,
       storage (world s') !! conversation act = Some (c, o) /\
       done c = false /\ continuationId c = Some id /\ id ≠ "" /\
       _continuations s' !! id = Some fn).
Proof.
  split; [by rewrite register_continuations_loads|].
  destruct (loaded_ready stack) as [Hready Hstored].
  destruct (converse_keeps redirects _ _ history _ Hready Hstored)
    as [Hready' Hstored'].
  destruct (onMessage_keeps redirects _ _ _ act Hready' Hstored')
    as (s' & Hturn & Hready'' & _ & (c & o & Hin & Hc) & Hsent & _).
  exists s'. split; [done|]. split; [done|].
  destruct Hready'' as (Hs & Hp & _ & _ & Hins & Hinp).
  destruct Hc as [-> | ->]; eexists _, o, _, _; eauto 10.
Qed.

(** X15: under the same conditions, a message of one conversation leaves
    the other conversations alone: what the store holds for them, and the
    [name] of their state objects, are as before. *)
Theorem onMessage_isolates (stack : list (option string))
    (redirects : nat) (history : list Activity) (act : Activity)
    (id : string) (c : Continuation) (o : object) :
  id ≠ conversation act ->
  storage (world (converse redirects history (loaded stack))) !! id = Some (c, o) ->
  storage (world (converse redirects (history ++ [act]) (loaded stack))) !! id =
    Some (c, o) /\
  objects (world (converse redirects (history ++ [act]) (loaded stack))) !! o =
    objects (world (converse redirects history (loaded stack))) !! o.
Proof.
  intros Hid Hin.
  destruct (loaded_ready stack) as [Hready Hstored].
  destruct (converse_keeps redirects _ _ history _ Hready Hstored)
    as [Hready' Hstored'].
  destruct (onMessage_keeps redirects _ _ _ act Hready' Hstored')
    as (s' & Hturn & _ & _ & _ & _ & Hothers).
  unfold converse. rewrite foldl_app. simpl. fold (converse redirects history (loaded stack)).
  rewrite Hturn. simpl. destruct (Hothers id Hid) as [Hsame Hobjects].
  split; [by rewrite Hsame | by apply (Hobjects c)].
Qed.

(** ** A conversation *)

(** Once the name is known, every message is echoed. *)
Lemma converse_echoes redirects start prompt (id name : string) (o : object)
    (acts : list Activity) :
  name ≠ "" ->
  Forall (fun act => conversation act = id) acts ->
  forall s,
    ready start prompt s ->
    storage (world s) !! id = Some (continuing start, o) ->
    objects (world s) !! o = Some (Some name) ->
    sent (world (converse redirects acts s)) =
      (sent (world s) ++
       map (fun act => (id, (name ++ ", you said: " ++ text act)%string)) acts)%list.
Proof.
  intros Hne Hacts. induction Hacts as [|act acts Hact _ IH]; intros s Hready Hin Ho.
  - simpl. by rewrite app_nil_r.
  - simpl. subst id.
    rewrite (onMessage_echoes redirects start prompt s act o name);
      [|done|done| |done].
    + rewrite IH; simpl; [|done|by rewrite lookup_insert_eq|done].
      by rewrite <- app_assoc.
    + unfold name_in. simpl. by rewrite Ho.
Qed.

(** The first two messages of a conversation. *)
Lemma converse_opening redirects start prompt (id : string) (first second : Activity) s :
  ready start prompt s ->
  storage (world s) !! id = None ->
  conversation first = id -> conversation second = id ->
  exists s' o,
    converse redirects [first; second] s = s' /\
    ready start prompt s' /\
    storage (world s') !! id = Some (continuing start, o) /\
    objects (world s') !! o = Some (Some (text second)) /\
    sent (world s') =
      (sent (world s) ++
       [(id, "Hi! What's your name?");
        (id, ("Nice to meet you " ++ text second ++
              "! You can say stuff to me and I'll echo it back.")%string)])%list.
Proof.
  intros Hready Hnew <- Hsecond. simpl.
  rewrite (onMessage_new redirects start prompt s first) by done. simpl.
  set (o := fresh (dom (objects (world s)))).
  rewrite (onMessage_greets redirects start prompt _ second o);
    [|done|rewrite Hsecond; simpl; apply lookup_insert_eq].
  eexists _, o. split; [done|]. split; [done|]. simpl. rewrite Hsecond.
  split; [apply lookup_insert_eq|]. split; [apply lookup_insert_eq|].
  by rewrite <- app_assoc.
Qed.

(** X16: the conversation the bot holds.  In a conversation it has not
    seen, whatever went on in others, the bot answers the first message by
    asking for the name, the second, when its text is not empty, by greeting
    with that text as name, and every later message by echoing its text after
    the name. *)
Theorem conversation_script (stack : list (option string)) (redirects : nat)
    (history : list Activity) (id : string) (first second : Activity)
    (rest : list Activity) :
  storage (world (converse redirects history (loaded stack))) !! id = None ->
  conversation first = id -> conversation second = id ->
  Forall (fun act => conversation act = id) rest ->
  text second ≠ "" ->
  sent (world (converse redirects (history ++ first :: second :: rest) (loaded stack))) =
    (sent (world (converse redirects history (loaded stack))) ++
     [(id, "Hi! What's your name?");
      (id, ("Nice to meet you " ++ text second ++
            "! You can say stuff to me and I'll echo it back.")%string)] ++
     map (fun act => (id, (text second ++ ", you said: " ++ text act)%string)) rest)%list.
Proof.
  intros Hnew Hfirst Hsecond Hrest Hname.
  destruct (loaded_ready stack) as [Hready Hstored].
  destruct (converse_keeps redirects _ _ history _ Hready Hstored) as [Hready' _].
  unfold converse. rewrite foldl_app.
  fold (converse redirects history (loaded stack)).
  change (foldl _ ?s (first :: second :: rest)) with
    (converse redirects rest (converse redirects [first; second] s)).
  destruct (converse_opening redirects _ _ id first second _ Hready' Hnew Hfirst Hsecond)
    as (s' & o & -> & Hready'' & Hin & Ho & Hsent).
  rewrite (converse_echoes redirects _ _ id (text second) o rest Hname Hrest s')
    by done.
  rewrite Hsent. by rewrite <- app_assoc.
Qed.

(** X17: a name that is the empty string is no name.  When the answer to
    the question is a message without text, the bot greets all the same, and
    asks for the name again on the next message instead of echoing it. *)
Theorem empty_name_asked_again (stack : list (option string)) (redirects : nat)
    (history : list Activity) (id : string) (first second third : Activity) :
  storage (world (converse redirects history (loaded stack))) !! id = None ->
  conversation first = id -> conversation second = id -> conversation third = id ->
  text second = "" ->
  sent (world (converse redirects (history ++ [first; second; third]) (loaded stack))) =
    (sent (world (converse redirects history (loaded stack))) ++
     [(id, "Hi! What's your name?");
      (id, "Nice to meet you ! You can say stuff to me and I'll echo it back.");
      (id, "Hi! What's your name?")])%list.
Proof.
  intros Hnew Hfirst Hsecond Hthird Hempty.
  destruct (loaded_ready stack) as [Hready Hstored].
  set (start := default_getContinuationId (callerFile stack) "startContinuation") in *.
  set (prompt := default_getContinuationId (callerFile stack) "namePromptContinuation") in *.
  destruct (converse_keeps redirects _ _ history _ Hready Hstored) as [Hready' _].
  unfold converse. rewrite foldl_app.
  fold (converse redirects history (loaded stack)).
  change (foldl _ ?s [first; second; third]) with
    (onMessage redirects third (converse redirects [first; second] s)).2.
  destruct (converse_opening redirects _ _ id first second _ Hready' Hnew Hfirst Hsecond)
    as (s' & o & -> & Hready'' & Hin & Ho & Hsent).
  rewrite (onMessage_asks redirects start prompt s' third o);
    [|done|by rewrite Hthird|].
  - simpl. rewrite Hsent, Hthird, Hempty. by rewrite <- app_assoc.
  - unfold name_in. simpl. by rewrite Ho, Hempty.
Qed.

(** ** New members *)

(** X18: the [onMembersAdded] handler sends the welcome once for every
    member added that is not the recipient of the activity (the bot itself),
    to the conversation of the activity, and changes nothing else. *)
Theorem onMembersAdded_welcomes (act : Activity) (s : State Bot) :
  sent (world (onMembersAdded act s)) =
    (sent (world s) ++
     map (fun _ => (conversation act, "Hello and welcome!"))
         (filter (fun member => member ≠ recipient act) (membersAdded act)))%list /\
  storage (world (onMembersAdded act s)) = storage (world s) /\
  objects (world (onMembersAdded act s)) = objects (world s) /\
  _continuations (onMembersAdded act s) = _continuations s /\
  _config (onMembersAdded act s) = _config s /\
  fn_continuationId (onMembersAdded act s) = fn_continuationId s.
Proof.
  unfold onMembersAdded. revert s.
  induction (membersAdded act) as [|member members IH]; intros s; simpl.
  - by rewrite app_nil_r.
  - rewrite filter_cons. destruct (decide (member = recipient act)) as [Heq|Hne].
    + rewrite decide_False by (intros H; by apply H). apply IH.
    + rewrite decide_True by done.
      destruct (IH (sendActivity (conversation act) welcomeText s))
        as (-> & -> & -> & -> & -> & ->).
      simpl. by rewrite <- app_assoc.
Qed.

End EchoBotFacts.

(** * The further properties at work *)

Lemma add_world_consistent k (s : State nat) :
  consistent s -> consistent (Sample.add_world k s).
Proof. done. Qed.

Lemma sample_keeps_consistent :
  user_code_respects Sample.code Sample.handler
    (fun s s' => consistent s -> consistent s').
Proof.
  split; [|done].
  intros fn maxIterations a s Hs.
  destruct (decide (fn = Sample.lazyStep)) as [->|Hother].
  - pose proof (canContinueWith_consistent Sample.name_of Sample.stepA
                  Sample.from_bot s Hs) as H.
    unfold Sample.code, Sample.lazyStep. simpl.
    by destruct (canContinueWith Sample.name_of Sample.stepA Sample.from_bot s).1.
  - unfold Sample.code. repeat case_match; simpl; subst;
      try done; try (by apply add_world_consistent); by destruct Hother.
Qed.

Lemma initial_consistent {W : Type} (w : W) : consistent (initial w).
Proof. intros id fn. simpl. by rewrite lookup_empty. Qed.

(** For X3: the README's test, registered from [test.js]. *)
Lemma default_policy_registration_sample :
  getContinuationId (_config (initial (W := nat) 0)) = default_getContinuationId /\
  canContinueWith Sample.name_of Sample.testContinuation Sample.from_test (initial 0) =
    (Returned Sample.testContinuation, Sample.tested) /\
  continueWith Sample.name_of Sample.testContinuation [VNum 7] Sample.tested =
    Returned Sample.chained /\
  canContinueWith Sample.name_of Sample.testContinuation Sample.from_other Sample.tested =
    (Threw (DuplicateRegistration "testContinuation" "other.js"), Sample.tested).
Proof.
  destruct (default_policy_registration Sample.name_of Sample.testContinuation
              Sample.from_test (initial 0) Sample.tested [VNum 7] Sample.from_other
              eq_refl eq_refl) as [Hwith Hagain].
  split; [reflexivity|]. split; [reflexivity|]. split; [exact Hwith | exact Hagain].
Defined.

(** For X7: [stepA], found in the table after the calls of [later]. *)
Lemma table_functions_continue_sample :
  consistent (initial (W := nat) 0) /\
  _continuations
    (exec_all Sample.name_of Sample.code Sample.handler
       (CanContinueWith Sample.stepA Sample.from_bot :: Sample.later) (initial 0))
    !! "bot.js#step" = Some Sample.stepA /\
  continueWith Sample.name_of Sample.stepA [VNum 1]
    (exec_all Sample.name_of Sample.code Sample.handler
       (CanContinueWith Sample.stepA Sample.from_bot :: Sample.later) (initial 0)) =
    Returned Sample.stepping.
Proof.
  assert ("bot.js#step" ≠ "") as Hne by done.
  split; [apply initial_consistent|]. split; [reflexivity|].
  exact (table_functions_continue Sample.name_of Sample.code Sample.handler
           (CanContinueWith Sample.stepA Sample.from_bot :: Sample.later) (initial 0)
           "bot.js#step" Sample.stepA [VNum 1]
           sample_keeps_consistent (initial_consistent 0) eq_refl Hne).
Defined.

(** For X8: the two entries of the table after the calls of [later] that
    have a non-empty identifier hold different functions. *)
Lemma one_identifier_per_function_sample :
  _continuations
    (exec_all Sample.name_of Sample.code Sample.handler
       (CanContinueWith Sample.stepA Sample.from_bot :: Sample.later) (initial 0))
    !! "bot.js#step" = Some Sample.stepA /\
  _continuations
    (exec_all Sample.name_of Sample.code Sample.handler
       (CanContinueWith Sample.stepA Sample.from_bot :: Sample.later) (initial 0))
    !! "index.js#lazyStep" = Some Sample.lazyStep /\
  "bot.js#step" = "bot.js#step".
Proof.
  assert ("bot.js#step" ≠ "") as Hne by done.
  split; [reflexivity|]. split; [reflexivity|].
  exact (one_identifier_per_function Sample.name_of Sample.code Sample.handler
           (CanContinueWith Sample.stepA Sample.from_bot :: Sample.later) (initial 0)
           "bot.js#step" "bot.js#step" Sample.stepA
           sample_keeps_consistent (initial_consistent 0) eq_refl eq_refl Hne Hne).
Defined.

(** For X10: a recovery that retries, on a continuation that is lost. *)
Lemma continueNow_redirect_loop_sample :
  _continuations Retry.retrying !! "gone.js#old" = None /\
  Retry.handler 1%positive Retry.lost tt Retry.retrying =
    (Returned Retry.lost, Retry.retrying) /\
  continueNow Retry.code Retry.handler 3 Retry.lost tt Retry.retrying =
    mkRun None Retry.retrying (replicate 4 (CalledFunctionNotFound Retry.lost tt)).
Proof.
  assert ("gone.js#old" ≠ "") as Hne by done.
  split; [reflexivity|]. split; [reflexivity|].
  exact (continueNow_redirect_loop Retry.code Retry.handler 3 Retry.lost
           "gone.js#old" 1%positive tt Retry.retrying
           eq_refl eq_refl Hne eq_refl eq_refl eq_refl).
Defined.

(** For X11: the entry of [stepA] is kept by the sample's functions, so it
    is there after an execution that runs one of them. *)
Lemma continueNow_keeps_invariants_sample :
  _continuations Sample.stepped !! "bot.js#step" = Some Sample.stepA /\
  _continuations
    (final (continueNow Sample.code Sample.handler 1 Sample.stepping 5 Sample.stepped))
    !! "bot.js#step" = Some Sample.stepA.
Proof.
  split; [reflexivity|].
  apply (continueNow_keeps_invariants Sample.code Sample.handler
           (fun s => _continuations s !! "bot.js#step" = Some Sample.stepA)
           1 Sample.stepping 5 Sample.stepped).
  - intros fn context a s. apply (proj1 sample_keeps_registry).
  - intros h c context s. apply (proj2 sample_keeps_registry).
  - reflexivity.
Defined.

(** For X12: the README's test, asked for a function that is gone. *)
Lemma continueNow_default_policy_sample :
  functionNotFound (_config Sample.tested) = DefaultFunctionNotFound /\
  continueNow Sample.code Sample.handler 7 Sample.missing 5 Sample.tested =
    mkRun (Some (Threw (ContinuationNotFound (Some "gone.js#old")))) Sample.tested
          [CalledFunctionNotFound Sample.missing 5].
Proof.
  split; [reflexivity|].
  exact (proj1 (continueNow_default_policy Sample.code Sample.handler 7
                  Sample.missing 5 Sample.tested eq_refl)).
Defined.

(** For X13: the README's test, as it is: [maxIterations] is 5. *)
Lemma test_iterates_sample :
  (5 <= Iteration.exact_limit)%N /\
  N.to_nat (N.max 1 5) <= 10 /\
  outcome (Iteration.main Sample.from_test 5 10) =
    Some (Returned (mkContinuation true None None)) /\
  calls (Iteration.main Sample.from_test 5 10) =
    replicate 5 (CalledFunction Iteration.testContinuation tt []) /\
  world (final (Iteration.main Sample.from_test 5 10)) =
    Iteration.mkTest 5 5
      ["This is call 1 of 5"; "This is call 2 of 5"; "This is call 3 of 5";
       "This is call 4 of 5"; "This is call 5 of 5"].
Proof.
  assert (5 <= Iteration.exact_limit)%N as Hexact by done.
  assert (N.to_nat (N.max 1 5) <= 10) as Hturns by (vm_compute; lia).
  split; [exact Hexact|]. split; [exact Hturns|].
  exact (test_iterates Sample.from_test 5 10 Hexact Hturns).
Defined.

(** For X15: a message of bob, after alice has given her name. *)
Lemma onMessage_isolates_sample :
  "alice" ≠ EchoBot.conversation (EchoBot.says "bob" "hello") /\
  EchoBot.storage
    (world (EchoBot.converse 0
              [EchoBot.says "alice" "hi"; EchoBot.says "alice" "Ann"]
              (EchoBot.loaded EchoBot.load_stack)))
    !! "alice" =
    Some (EchoBot.continuing "continuations.js#startContinuation", 1%positive) /\
  EchoBot.storage
    (world (EchoBot.converse 0
              ([EchoBot.says "alice" "hi"; EchoBot.says "alice" "Ann"] ++
               [EchoBot.says "bob" "hello"])
              (EchoBot.loaded EchoBot.load_stack)))
    !! "alice" =
    Some (EchoBot.continuing "continuations.js#startContinuation", 1%positive) /\
  EchoBot.objects
    (world (EchoBot.converse 0
              ([EchoBot.says "alice" "hi"; EchoBot.says "alice" "Ann"] ++
               [EchoBot.says "bob" "hello"])
              (EchoBot.loaded EchoBot.load_stack)))
    !! 1%positive = Some (Some "Ann").
Proof.
  assert ("alice" ≠ EchoBot.conversation (EchoBot.says "bob" "hello")) as Hne by done.
  destruct (onMessage_isolates EchoBot.load_stack 0
              [EchoBot.says "alice" "hi"; EchoBot.says "alice" "Ann"]
              (EchoBot.says "bob" "hello") "alice"
              (EchoBot.continuing "continuations.js#startContinuation") 1%positive
              Hne eq_refl) as [Hstorage Hobjects].
  split; [exact Hne|]. split; [reflexivity|]. split; [exact Hstorage|].
  exact Hobjects.
Defined.

(** For X16: alice says hi, gives her name, and is echoed twice. *)
Lemma conversation_script_sample :
  EchoBot.storage (world (EchoBot.converse 0 [] (EchoBot.loaded EchoBot.load_stack)))
    !! "alice" = None /\
  EchoBot.text (EchoBot.says "alice" "Ann") ≠ "" /\
  EchoBot.sent
    (world (EchoBot.converse 0
              ([] ++ EchoBot.says "alice" "hi" :: EchoBot.says "alice" "Ann" ::
                     [EchoBot.says "alice" "one"; EchoBot.says "alice" "two"])
              (EchoBot.loaded EchoBot.load_stack))) =
    [("alice", "Hi! What's your name?");
     ("alice", "Nice to meet you Ann! You can say stuff to me and I'll echo it back.");
     ("alice", "Ann, you said: one");
     ("alice", "Ann, you said: two")].
Proof.
  assert (EchoBot.text (EchoBot.says "alice" "Ann") ≠ "") as Hname by done.
  assert (Forall (fun act => EchoBot.conversation act = "alice")
            [EchoBot.says "alice" "one"; EchoBot.says "alice" "two"]) as Hrest
    by (repeat constructor).
  split; [reflexivity|]. split; [exact Hname|].
  exact (conversation_script EchoBot.load_stack 0 [] "alice"
           (EchoBot.says "alice" "hi") (EchoBot.says "alice" "Ann")
           [EchoBot.says "alice" "one"; EchoBot.says "alice" "two"]
           eq_refl eq_refl eq_refl Hrest Hname).
Defined.

(** For X17: alice answers the question with an empty message. *)
Lemma empty_name_asked_again_sample :
  EchoBot.storage (world (EchoBot.converse 0 [] (EchoBot.loaded EchoBot.load_stack)))
    !! "alice" = None /\
  EchoBot.sent
    (world (EchoBot.converse 0
              ([] ++ [EchoBot.says "alice" "hi"; EchoBot.says "alice" "";
                      EchoBot.says "alice" "Ann"])
              (EchoBot.loaded EchoBot.load_stack))) =
    [("alice", "Hi! What's your name?");
     ("alice", "Nice to meet you ! You can say stuff to me and I'll echo it back.");
     ("alice", "Hi! What's your name?")].
Proof.
  split; [reflexivity|].
  exact (empty_name_asked_again EchoBot.load_stack 0 [] "alice"
           (EchoBot.says "alice" "hi") (EchoBot.says "alice" "")
           (EchoBot.says "alice" "Ann") eq_refl eq_refl eq_refl eq_refl eq_refl).
Defined.
